(** * Backup producer ([backup_library.py]) and restore consumer
      ([restore_backup.py]) of the Dockerized Calibre content server.

    Shallow embedding of the two scripts.  Every filesystem or process effect
    is explicit: the scripts run in a small state-and-exception monad whose
    state is the part of the machine the script touches, together with a log
    of the observable effects in the order they happen. *)

From Stdlib Require Import String Ascii List Bool Arith Lia ZArith QArith.
From Stdlib Require Import Permutation Sorted.
From Stdlib Require DecimalString OrdersEx.
Import ListNotations.
Open Scope nat_scope.
Open Scope string_scope.
Open Scope list_scope.

Local Infix "+++" := String.append (at level 60, right associativity).

(** ** Python string helpers (ASCII text) *)

(** [str.isspace] on an ASCII character: \t \n \x0b \x0c \r, \x1c-\x1f and
    the space. *)
Definition is_space (c : ascii) : bool :=
  let n := nat_of_ascii c in
  (Nat.leb 9 n && Nat.leb n 13) || (Nat.leb 28 n && Nat.leb n 32).

Fixpoint lstrip_l (l : list ascii) : list ascii :=
  match l with
  | [] => []
  | c :: r => if is_space c then lstrip_l r else l
  end.

(** [str.strip()] *)
Definition strip (s : string) : string :=
  string_of_list_ascii
    (rev (lstrip_l (rev (lstrip_l (list_ascii_of_string s))))).

(** A character list that does not start with white space. *)
Definition starts_non_space (l : list ascii) : Prop :=
  match l with [] => True | c :: _ => is_space c = false end.

(** [s.startswith(p)] *)
Definition startswith (s p : string) : bool := String.prefix p s.

(** [s.endswith(x)] *)
Definition endswith (s x : string) : bool :=
  String.prefix (string_of_list_ascii (rev (list_ascii_of_string x)))
                (string_of_list_ascii (rev (list_ascii_of_string s))).

(** [sub in s] *)
Fixpoint contains (sub s : string) : bool :=
  String.prefix sub s ||
  match s with
  | EmptyString => false
  | String _ s' => contains sub s'
  end.

Definition lower_char (c : ascii) : ascii :=
  let n := nat_of_ascii c in
  if Nat.leb 65 n && Nat.leb n 90 then ascii_of_nat (n + 32) else c.

(** [s.lower()] *)
Definition lower (s : string) : string :=
  string_of_list_ascii (map lower_char (list_ascii_of_string s)).

(** [list.sort()]: an insertion sort for the order [le]. *)
Section Sort.
Context {A : Type} (le : A -> A -> bool).

Fixpoint insert (x : A) (l : list A) : list A :=
  match l with
  | [] => [x]
  | y :: r => if le x y then x :: y :: r else y :: insert x r
  end.

Fixpoint sort (l : list A) : list A :=
  match l with
  | [] => []
  | x :: r => insert x (sort r)
  end.
End Sort.

(** Python's order on [str] (code points; here ASCII codes). *)
Definition str_le (a b : string) : bool := String.leb a b.

Definition sort_str : list string -> list string := sort str_le.

(** ** Directories as the scripts see them *)

(** The content of a file of the backup directory: a text file (a state
    record) or a zip archive, with the member paths it holds; [ok = false]
    is an archive that [zipfile] cannot read (damaged in transit). *)
Inductive content :=
| Text (s : string)
| Zip (members : list string) (ok : bool).

(** A flat directory: names in [os.listdir] order, with their content. *)
Definition dir := list (string * content).

Fixpoint lookup_dir (d : dir) (n : string) : option content :=
  match d with
  | [] => None
  | (m, c) :: r => if String.eqb m n then Some c else lookup_dir r n
  end.

Definition exists_in (d : dir) (n : string) : bool :=
  match lookup_dir d n with Some _ => true | None => false end.

(** [open(n, "w")] followed by a write: the file is replaced in place, or
    added to the directory when it did not exist. *)
Fixpoint write_dir (d : dir) (n : string) (c : content) : dir :=
  match d with
  | [] => [(n, c)]
  | (m, c') :: r =>
      if String.eqb m n then (m, c) :: r else (m, c') :: write_dir r n c
  end.

Definition remove_dir (d : dir) (n : string) : dir :=
  filter (fun e => negb (String.eqb (fst e) n)) d.

Definition listdir (d : dir) : list string := map fst d.

(** ** A state and exception monad *)

Inductive exn :=
| FileNotFoundError (path : string)
| BadZipFile (path : string)
| UnicodeDecodeError (path : string)
| OSError (path : string).   (** other [OSError]s: [IsADirectoryError], ... *)

Inductive res (W A : Type) :=
| Ok (a : A) (w : W)
| Exc (e : exn) (w : W).
Arguments Ok {W A}.
Arguments Exc {W A}.

Definition M (W A : Type) := W -> res W A.

Definition ret {W A} (a : A) : M W A := fun w => Ok a w.
Definition raise {W A} (e : exn) : M W A := fun w => Exc e w.
Definition bind {W A B} (m : M W A) (k : A -> M W B) : M W B :=
  fun w => match m w with Ok a w' => k a w' | Exc e w' => Exc e w' end.
Definition get {W} : M W W := fun w => Ok w w.
Definition put {W} (w : W) : M W unit := fun _ => Ok tt w.

Notation "x <- m ;; k" := (bind m (fun x => k))
  (at level 61, m at next level, right associativity).
Notation "m ;;; k" := (bind m (fun _ => k)) (at level 61, right associativity).

(** A [for] loop whose body threads a loop-carried variable. *)
Fixpoint foldM {W A B} (f : B -> A -> M W B) (l : list A) (b : B) : M W B :=
  match l with
  | [] => ret b
  | x :: r => b' <- f b x ;; foldM f r b'
  end.

Definition res_world {W A} (r : res W A) : W :=
  match r with Ok _ w => w | Exc _ w => w end.

Definition is_ok {W A} (r : res W A) : Prop :=
  match r with Ok _ _ => True | Exc _ _ => False end.


(** ** The consumer: [restore_backup.py] *)
Module Consumer.

(** Observable effects of a consumer run. *)
Inductive event :=
| Visit (prefix : string)                (** "=== Processing library" *)
| Stop                                   (** [docker stop calibre] *)
| Start                                  (** [docker start calibre] *)
| Clear (library_dir : string)           (** [clear_directory] *)
| Extract (backup : string) (library_dir : string)  (** [extractall] *)
| WriteState (path : string) (value : string).

Record world := mkWorld {
  backup_dir_exists : bool;   (** [os.path.isdir(BACKUP_DIR)] *)
  bdir : dir;                 (** the content of [BACKUP_DIR] *)
  log : list event
}.

Definition CM := M world.

Definition emit (e : event) : CM unit :=
  fun w => Ok tt (mkWorld (backup_dir_exists w) (bdir w) (log w ++ [e])).

Definition LIBRARIES : list (string * string) :=
  [("books", "calibre-libraries/Books Library");
   ("manga", "calibre-libraries/Manga Library")].

Definition LOCAL_STATE_SUFFIX := "_library_last_restored_state.txt".

(** Files of [BACKUP_DIR] are named by their base name. *)
Definition remote_state_file (prefix : string) : string :=
  prefix +++ "_library_state.txt".

Definition local_state_file (prefix : string) : string :=
  prefix +++ LOCAL_STATE_SUFFIX.

Definition read_state (path : string) : CM (option string) :=
  w <- get ;;
  match lookup_dir (bdir w) path with
  | None => ret None
  | Some (Text s) =>
      let t := strip s in
      if String.eqb t "" then ret None else ret (Some t)
  | Some (Zip _ _) => raise (UnicodeDecodeError path)
  end.

Definition write_state (path value : string) : CM unit :=
  w <- get ;;
  put (mkWorld (backup_dir_exists w) (write_dir (bdir w) path (Text value))
               (log w)) ;;;
  emit (WriteState path value).

Definition is_candidate (prefix name : string) : bool :=
  endswith name ".zip" && startswith name (prefix +++ "_library_")
  && negb (contains "_monthly" name).

Definition find_latest_non_monthly_backup (prefix : string)
  : CM (option string) :=
  w <- get ;;
  if negb (backup_dir_exists w) then ret None else
  let candidates := filter (is_candidate prefix) (listdir (bdir w)) in
  match candidates with
  | [] => ret None
  | c :: _ => ret (Some (last (sort_str candidates) c))
  end.

(** [clear_directory] and then [zf.extractall]: [zipfile.ZipFile] raises on
    a file that is not a readable zip archive. *)
Definition restore_library_from_backup (prefix backup_path library_dir : string)
  : CM unit :=
  emit (Clear library_dir) ;;;
  w <- get ;;
  match lookup_dir (bdir w) backup_path with
  | Some (Zip _ true) => emit (Extract backup_path library_dir)
  | Some _ => raise (BadZipFile backup_path)
  | None => raise (FileNotFoundError backup_path)
  end.

Definition stop_calibre_container : CM unit := emit Stop.
Definition start_calibre_container : CM unit := emit Start.

Definition opt_str_eqb (a b : option string) : bool :=
  match a, b with
  | Some x, Some y => String.eqb x y
  | None, None => true
  | _, _ => false
  end.

(** The body of the [for prefix, library_dir in LIBRARIES.items()] loop;
    [any_restored] is the loop-carried variable, a [continue] returns it. *)
Definition body (any_restored : bool) (lib : string * string) : CM bool :=
  let '(prefix, library_dir) := lib in
  emit (Visit prefix) ;;;
  remote_state <- read_state (remote_state_file prefix) ;;
  match remote_state with
  | None => ret any_restored
  | Some r =>
      local_state <- read_state (local_state_file prefix) ;;
      if opt_str_eqb local_state (Some r) then ret any_restored else
      (if negb any_restored then stop_calibre_container else ret tt) ;;;
      latest_backup <- find_latest_non_monthly_backup prefix ;;
      match latest_backup with
      | None => ret any_restored
      | Some b =>
          restore_library_from_backup prefix b library_dir ;;;
          write_state (local_state_file prefix) r ;;;
          ret true
      end
  end.

Definition main_with (libs : list (string * string)) : CM unit :=
  w <- get ;;
  if negb (backup_dir_exists w) then ret tt else
  any_restored <- foldM body libs false ;;
  if any_restored then start_calibre_container else ret tt.

Definition main : CM unit := main_with LIBRARIES.

Definition run (w : world) : list event := log (res_world (main w)).

(** *** Concrete consumer states *)

Definition manga_zip := "manga_library_2025-01-01_00-00-00.zip".
Definition books_zip := "books_library_2025-01-01_00-00-00.zip".

(** Both libraries have a producer state and no consumer state; only manga
    has an artifact to restore. *)
Definition w_books_no_artifact : world :=
  mkWorld true
    [("books_library_state.txt", Text "h1");
     ("manga_library_state.txt", Text "h2");
     (manga_zip, Zip ["metadata.db"] true)] [].

(** books is pending without artifact; manga is in sync. *)
Definition w_only_books_pending : world :=
  mkWorld true
    [("books_library_state.txt", Text "h1");
     ("manga_library_state.txt", Text "h2");
     ("manga_library_last_restored_state.txt", Text "h2")] [].

(** Both libraries are pending; the books artifact is damaged. *)
Definition w_books_damaged : world :=
  mkWorld true
    [("books_library_state.txt", Text "h1");
     (books_zip, Zip [] false);
     ("manga_library_state.txt", Text "h2");
     (manga_zip, Zip ["metadata.db"] true)] [].

(** The producer state of books holds only white space; an archive of
    books is present. *)
Definition w_blank_state : world :=
  mkWorld true
    [("books_library_state.txt", Text "   ");
     (books_zip, Zip ["metadata.db"] true)] [].

End Consumer.

(** ** The producer: [backup_library.py] *)
Module Producer.

(** What [os.stat] returns that the script uses: [st_size] in bytes and
    [st_mtime] in seconds (a float, here a rational). *)
Record fstat := mkStat { st_size : Z; st_mtime : Q }.

(** A library tree as [os.walk] sees it.  [File None] is a file that
    [os.scandir] lists but that is gone when it is stat-ed or opened; a
    symbolic link to a directory is listed among the directories and not
    descended into ([followlinks=False]); any other file is a [File]. *)
#[warnings="-register-all"]
Inductive node :=
| File (st : option fstat)
| Dir (entries : list (string * node))
| DirLink.

(** [datetime.datetime.now()] *)
Record datetime := mkDT {
  year : nat; month : nat; day : nat; hour : nat; minute : nat; second : nat }.

(** Observable effects of a producer run. *)
Inductive event :=
| Visit (prefix : string)                (** [os.path.isdir(library_dir)] *)
| WriteState (name value : string)       (** the state file is written *)
| CreateZip (name : string)              (** [zipfile.ZipFile(.., "w")] *)
| Copy (src dst : string)                (** [shutil.copy2] *)
| Remove (name : string).                (** [os.remove] *)

(** The machine as the producer sees it: [BACKUP_DIR] (files named by their
    base name), the library directories that exist with their trees, the
    number of [datetime.now()] calls made so far, and the log. *)
Record world := mkWorld {
  bdir : dir;
  trees : list (string * list (string * node));
  tick : nat;
  log : list event
}.

Definition PM := M world.

Definition emit (e : event) : PM unit :=
  fun w => Ok tt (mkWorld (bdir w) (trees w) (tick w) (log w ++ [e])).

Definition set_bdir (d : dir) : PM unit :=
  fun w => Ok tt (mkWorld d (trees w) (tick w) (log w)).

Definition LIBRARIES : list (string * string) :=
  [("books", "C:\Users\user\Books Library");
   ("manga", "C:\Users\user\Manga Library")].

Definition BACKUP_DIR := "C:\Users\user\calibrebackups".

Definition MAX_RECENT_BACKUPS := 1.
Definition MAX_MONTHLY_SNAPSHOTS := 12.

(** [os.sep] of the Windows machine the producer is configured for. *)
Definition SEP := "\".

(** [os.path.join(BACKUP_DIR, f)] *)
Definition join_bd (f : string) : string := BACKUP_DIR +++ SEP +++ f.

Definition is_sep (c : ascii) : bool :=
  Ascii.eqb c "\"%char || Ascii.eqb c "/"%char.

Fixpoint takewhile {A} (f : A -> bool) (l : list A) : list A :=
  match l with
  | [] => []
  | x :: r => if f x then x :: takewhile f r else []
  end.

(** [os.path.basename] (ntpath): what follows the last separator. *)
Definition basename (p : string) : string :=
  string_of_list_ascii
    (rev (takewhile (fun c => negb (is_sep c)) (rev (list_ascii_of_string p)))).

Fixpoint lookup_tree (t : list (string * list (string * node))) (p : string)
  : option (list (string * node)) :=
  match t with
  | [] => None
  | (q, es) :: r => if String.eqb q p then Some es else lookup_tree r p
  end.

(** *** Names *)

Definition digit (n : nat) : ascii := ascii_of_nat (48 + n).

(** [n] written with [w] decimal digits, zero-padded. *)
Fixpoint pad (w n : nat) : string :=
  match w with
  | 0 => ""
  | S w' => String (digit (n / 10 ^ w')) (pad w' (n mod 10 ^ w'))
  end.

(** [now.strftime("%Y-%m-%d_%H-%M-%S")] *)
Definition strftime_full (t : datetime) : string :=
  pad 4 (year t) +++ "-" +++ pad 2 (month t) +++ "-" +++ pad 2 (day t) +++ "_" +++
  pad 2 (hour t) +++ "-" +++ pad 2 (minute t) +++ "-" +++ pad 2 (second t).

(** [now.strftime("%Y-%m")] *)
Definition strftime_month (t : datetime) : string :=
  pad 4 (year t) +++ "-" +++ pad 2 (month t).

(** [f"{prefix}_library_{timestamp}.zip"] *)
Definition backup_name (prefix : string) (now : datetime) : string :=
  prefix +++ "_library_" +++ strftime_full now +++ ".zip".

(** [f"{prefix}_library_{month_tag}_monthly.zip"] *)
Definition monthly_name (prefix : string) (now : datetime) : string :=
  prefix +++ "_library_" +++ strftime_month now +++ "_monthly.zip".

Definition state_file_for_prefix (prefix : string) : string :=
  prefix +++ "_library_state.txt".

(** *** The fingerprint record of one file *)

(** [str(z)] of an [int] *)
Definition str_Z (z : Z) : string :=
  DecimalString.NilZero.string_of_int (Z.to_int z).

(** [int(x)] of a float: truncation towards zero. *)
Definition int_of_float (q : Q) : Z := Z.quot (Qnum q) (Zpos (Qden q)).

Definition NL : string := String (ascii_of_nat 10) "".

(** [os.path.relpath(os.path.join(root, file), library_dir)], where [root] is
    [library_dir] joined with the components [rel]. *)
Definition relpath (rel : list string) (file : string) : string :=
  String.concat SEP (rel ++ [file]).

(** [f"{rel_path}|{size}|{mtime}\n"] *)
Definition entry_of (rel : list string) (file : string) (st : fstat) : string :=
  relpath rel file +++ "|" +++ str_Z (st_size st) +++ "|" +++
  str_Z (int_of_float (st_mtime st)) +++ NL.

Definition hex_char (n : nat) : ascii :=
  if Nat.ltb n 10 then ascii_of_nat (48 + n) else ascii_of_nat (87 + n).

(** [hasher.hexdigest()] of the digest bytes. *)
Definition hexdigest (b : list Byte.byte) : string :=
  string_of_list_ascii
    (flat_map (fun x => let n := Byte.to_nat x in
                        [hex_char (n / 16); hex_char (n mod 16)]) b).

(** [os.walk] puts an entry among [dirs] when [is_dir()] holds, which follows
    symbolic links. *)
Definition is_dir_entry (e : string * node) : bool :=
  match snd e with File _ => false | _ => true end.

(** [dirs.sort()], [files.sort()]: by name. *)
Definition sort_entries : list (string * node) -> list (string * node) :=
  sort (fun a b => str_le (fst a) (fst b)).

Fixpoint depth (n : node) : nat :=
  match n with
  | Dir es =>
      S ((fix go (l : list (string * node)) : nat :=
            match l with
            | [] => 0
            | (_, c) :: r => Nat.max (depth c) (go r)
            end) es)
  | _ => 0
  end.

Fixpoint nodup_names (l : list string) : bool :=
  match l with
  | [] => true
  | x :: r => negb (existsb (String.eqb x) r) && nodup_names r
  end.

(** A real directory lists each name once. *)
Fixpoint wf (n : node) : bool :=
  match n with
  | Dir es =>
      nodup_names (map fst es) &&
      (fix go (l : list (string * node)) : bool :=
         match l with
         | [] => true
         | (_, c) :: r => wf c && go r
         end) es
  | _ => true
  end.

(** *** The script *)
Section Env.

(** The order in which the operating system lists the entries of the
    directory at a relative path; Python leaves it unspecified. *)
Variable ord : list string -> list (string * node) -> list (string * node).
(** SHA-256 *)
Variable sha256 : list Byte.byte -> list Byte.byte.
(** The wall clock: the time of the [n]-th call of [datetime.now()]. *)
Variable clock : nat -> datetime.

(** [os.walk] (top-down) as the list of the triples it yields; [arrange] is
    what the caller's loop body does in place to [dirs] before the generator
    resumes and descends into them.  The [fuel] bounds the depth. *)
Fixpoint os_walk (fuel : nat)
    (arrange : list (string * node) -> list (string * node))
    (rel : list string) (entries : list (string * node))
  : list (list string * list (string * node) * list (string * node)) :=
  match fuel with
  | 0 => []
  | S f =>
      let listing := ord rel entries in
      let dirs := arrange (filter is_dir_entry listing) in
      let nondirs := filter (fun e => negb (is_dir_entry e)) listing in
      (rel, dirs, nondirs) ::
      flat_map (fun e => match snd e with
                         | Dir es => os_walk f arrange (rel ++ [fst e]) es
                         | _ => []
                         end) dirs
  end.

Definition walk arrange (entries : list (string * node)) :=
  os_walk (depth (Dir entries)) arrange [] entries.

(** The records of the files of one directory: [files.sort()], then a record
    per file that [os.stat] finds. *)
Definition file_entries (rel : list string) (files : list (string * node))
  : list string :=
  flat_map (fun f => match snd f with
                     | File (Some st) => [entry_of rel (fst f) st]
                     | _ => []
                     end) (sort_entries files).

Definition compute_library_fingerprint (entries : list (string * node))
  : string :=
  let updates :=
    flat_map (fun t => let '(rel, _, files) := t in file_entries rel files)
             (walk sort_entries entries) in
  hexdigest (sha256 (flat_map list_byte_of_string updates)).

Definition now : PM datetime :=
  fun w => Ok (clock (tick w)) (mkWorld (bdir w) (trees w) (S (tick w)) (log w)).

Definition has_library_changed (prefix : string) (entries : list (string * node))
  : PM bool :=
  let current := compute_library_fingerprint entries in
  let state_path := state_file_for_prefix prefix in
  w <- get ;;
  let write_new :=
    set_bdir (write_dir (bdir w) state_path (Text current)) ;;;
    emit (WriteState state_path current) ;;;
    ret true in
  match lookup_dir (bdir w) state_path with
  | Some (Text s) => if String.eqb (strip s) current then ret false else write_new
  | Some (Zip _ _) => raise (UnicodeDecodeError state_path)
  | None => write_new
  end.

(** The files [zf.write] is called on, in [os.walk] order (no sorting). *)
Definition zip_files (entries : list (string * node))
  : list (list string * (string * node)) :=
  flat_map (fun t => let '(rel, _, files) := t in map (fun f => (rel, f)) files)
           (walk (fun ds => ds) entries).

(** The members written, and the exception that stops the loop: [zf.write]
    raises [FileNotFoundError] on a file that is gone. *)
Fixpoint pack (files : list (list string * (string * node)))
  : list string * option exn :=
  match files with
  | [] => ([], None)
  | (rel, (f, n)) :: r =>
      match n with
      | File (Some _) => let '(ms, e) := pack r in (relpath rel f :: ms, e)
      | _ => ([], Some (FileNotFoundError (relpath rel f)))
      end
  end.

(** The [with] block closes the archive also when the loop raises. *)
Definition create_backup_zip (prefix : string) (entries : list (string * node))
  : PM string :=
  now_ <- now ;;
  let name := backup_name prefix now_ in
  emit (CreateZip name) ;;;
  let '(members, err) := pack (zip_files entries) in
  w <- get ;;
  set_bdir (write_dir (bdir w) name (Zip members true)) ;;;
  match err with
  | Some e => raise e
  | None => ret name
  end.

Definition ensure_monthly_snapshot (prefix latest_backup : string) : PM unit :=
  now_ <- now ;;
  let mname := monthly_name prefix now_ in
  w <- get ;;
  if exists_in (bdir w) mname then ret tt else
  match lookup_dir (bdir w) latest_backup with
  | Some c => set_bdir (write_dir (bdir w) mname c) ;;; emit (Copy latest_backup mname)
  | None => raise (FileNotFoundError latest_backup)
  end.

(** [os.remove(path)] on a path of [BACKUP_DIR]. *)
Definition os_remove (path : string) : PM unit :=
  w <- get ;;
  match find (fun n => String.eqb (join_bd n) path) (listdir (bdir w)) with
  | Some n => set_bdir (remove_dir (bdir w) n) ;;; emit (Remove n)
  | None => raise (FileNotFoundError path)
  end.

Definition remove_all (paths : list string) : PM unit :=
  foldM (fun _ p => os_remove p) paths tt.

End Env.

(** [l[:-k]] *)
Definition slice_but_last {A} (l : list A) (k : nat) : list A :=
  if Nat.eqb k 0 then [] else firstn (length l - k) l.

Definition is_backup_of (prefix f : string) : bool :=
  endswith (lower f) ".zip" && startswith f (prefix +++ "_library_").

Definition is_monthly_path (p : string) : bool := contains "_monthly" (basename p).

Definition prune_backups_for_prefix (prefix : string) : PM unit :=
  w <- get ;;
  let all_files := filter (is_backup_of prefix) (listdir (bdir w)) in
  let full_paths := map join_bd all_files in
  let recent := sort_str (filter (fun p => negb (is_monthly_path p)) full_paths) in
  let monthly := sort_str (filter is_monthly_path full_paths) in
  (if Nat.ltb MAX_RECENT_BACKUPS (length recent)
   then remove_all (slice_but_last recent MAX_RECENT_BACKUPS) else ret tt) ;;;
  (if Nat.ltb MAX_MONTHLY_SNAPSHOTS (length monthly)
   then remove_all (slice_but_last monthly MAX_MONTHLY_SNAPSHOTS) else ret tt).

Section Main.
Variable ord : list string -> list (string * node) -> list (string * node).
Variable sha256 : list Byte.byte -> list Byte.byte.
Variable clock : nat -> datetime.

(** The body of the [for prefix, library_dir in LIBRARIES.items()] loop. *)
Definition body (lib : string * string) : PM unit :=
  let '(prefix, library_dir) := lib in
  emit (Visit prefix) ;;;
  w <- get ;;
  match lookup_tree (trees w) library_dir with
  | None => ret tt
  | Some es =>
      changed <- has_library_changed ord sha256 prefix es ;;
      if negb changed then ret tt else
      latest_backup <- create_backup_zip ord clock prefix es ;;
      ensure_monthly_snapshot clock prefix latest_backup ;;;
      prune_backups_for_prefix prefix
  end.

(** [ensure_backup_dir()] has no effect on this model. *)
Definition main_with (libs : list (string * string)) : PM unit :=
  foldM (fun _ lib => body lib) libs tt.

Definition main : PM unit := main_with LIBRARIES.

Definition run (w : world) : list event := log (res_world (main w)).

End Main.

End Producer.

(** ** The fingerprint as the specification states it *)
Module FingerprintSpec.
Import Producer.

(** [<path-relative-to-root>|<size-bytes>|<integer-mtime-seconds>\n], the
    path joined with the separator, the mtime truncated to whole seconds. *)
Definition spec_record (rel : list string) (name : string) (st : fstat) : string :=
  String.concat SEP (rel ++ [name]) +++ "|" +++ str_Z (st_size st) +++ "|" +++
  str_Z (Z.quot (Qnum (st_mtime st)) (Zpos (Qden (st_mtime st)))) +++ NL.

(** The records of the regular files met in a traversal that visits, in each
    directory, its files and then its subdirectories, both in sorted order of
    names; a file gone before it is stat-ed gives no record. *)
Fixpoint spec_records (rel : list string) (n : node) : list string :=
  match n with
  | Dir es =>
      let kids :=
        (fix go (l : list (string * node)) : list (string * node * list string) :=
           match l with
           | [] => []
           | (name, c) :: r => (name, c, spec_records (rel ++ [name]) c) :: go r
           end) es in
      flat_map (fun f => match snd f with
                         | File (Some st) => [spec_record rel (fst f) st]
                         | _ => []
                         end)
               (sort_entries (filter (fun e => negb (is_dir_entry e)) es)) ++
      flat_map (fun k => let '(_, _, recs) := k in recs)
               (sort (fun a b => str_le (fst (fst a)) (fst (fst b)))
                     (filter (fun k => is_dir_entry (fst k)) kids))
  | _ => []
  end.

(** The hex digest of SHA-256 fed with the UTF-8 bytes of the records. *)
Definition spec_fingerprint (sha256 : list Byte.byte -> list Byte.byte)
  (entries : list (string * node)) : string :=
  hexdigest (sha256 (flat_map list_byte_of_string (spec_records [] (Dir entries)))).

(** A small library: a file gone before it is stat-ed, a subdirectory, a
    link to a directory. *)
Definition sample_tree : list (string * node) :=
  [("metadata.db", File (Some (mkStat 4096 (Qmake 34011 20))));
   ("Author", Dir [("cover.jpg", File (Some (mkStat 120 (Qmake 3 1))));
                   ("book.epub", File (Some (mkStat 900 (Qmake 7 2))))]);
   ("metadata.db-journal", File None);
   ("shortcut", DirLink)].

(** Two listing orders of the operating system. *)
Definition listing_as_is (rel : list string) (l : list (string * node)) := l.
Definition listing_reversed (rel : list string) (l : list (string * node)) := rev l.

End FingerprintSpec.

(** ** Vocabulary for reasoning about producer runs *)
Module ProducerReasoning.
Import Producer.

(** The files of library [q] are named [q_library_...]. *)
Definition owned (q n : string) : Prop := startswith n (q +++ "_library_") = true.

(** The events the iteration for library [q] may log. *)
Definition own_event (q : string) (e : event) : Prop :=
  match e with
  | Visit q' => q' = q
  | WriteState n _ | CreateZip n | Copy _ n | Remove n => owned q n
  end.

(** An event that packs, copies or removes an archive of library [q]. *)
Definition archive_event (q : string) (e : event) : Prop :=
  match e with
  | CreateZip n | Copy _ n | Remove n => owned q n
  | _ => False
  end.

(** The effect of a step of a run: it keeps the library trees, changes no
    file of [BACKUP_DIR] outside [S], keeps the names of [BACKUP_DIR]
    distinct, and appends to the log events that satisfy [P]. *)
Definition step_rel (S : string -> Prop) (P : event -> Prop) (w w' : world) : Prop :=
  trees w' = trees w /\
  (forall n, ~ S n -> lookup_dir (bdir w') n = lookup_dir (bdir w) n) /\
  (NoDup (listdir (bdir w)) -> NoDup (listdir (bdir w'))) /\
  exists new, log w' = log w ++ new /\ Forall P new.


(** What an iteration does after it has announced the library. *)
Definition after_visit (p : string) (e : event) : Prop :=
  archive_event p e \/ exists v, e = WriteState (state_file_for_prefix p) v.

(** The world once [body] has logged that it visits library [p]. *)
Definition visited (p : string) (w : world) : world :=
  mkWorld (bdir w) (trees w) (tick w) (log w ++ [Visit p]).

Definition lib_owned (libs : list (string * string)) (n : string) : Prop :=
  exists q ld, In (q, ld) libs /\ owned q n.

Definition lib_event (libs : list (string * string)) (e : event) : Prop :=
  exists q ld, In (q, ld) libs /\ own_event q e.


(** *** Pruning *)

(** The number of elements of [l] that sort strictly after [x]. *)
Definition count_gt (x : string) (l : list string) : nat :=
  length (filter (fun y => String.ltb x y) l).

(** The archives of library [p] in [d] whose full path [g] accepts. *)
Definition part_of (p : string) (g : string -> bool) (d : dir) : list string :=
  filter (fun f => is_backup_of p f && g (join_bd f)) (listdir d).

Definition recent_of (p : string) (d : dir) : list string :=
  part_of p (fun q => negb (is_monthly_path q)) d.

Definition monthly_of (p : string) (d : dir) : list string :=
  part_of p is_monthly_path d.

(** An archive is old when at least [K] archives of its partition sort
    after it, [K] the number kept for the partition. *)
Definition pruned (p : string) (d : dir) (f : string) : Prop :=
  (In f (recent_of p d) /\ MAX_RECENT_BACKUPS <= count_gt f (recent_of p d)) \/
  (In f (monthly_of p d) /\ MAX_MONTHLY_SNAPSHOTS <= count_gt f (monthly_of p d)).

(** Chronological order of the times a name encodes. *)
Definition lex (c d : comparison) : comparison :=
  match c with Eq => d | _ => c end.

Definition dt_compare (a b : datetime) : comparison :=
  lex (Nat.compare (year a) (year b))
    (lex (Nat.compare (month a) (month b))
      (lex (Nat.compare (day a) (day b))
        (lex (Nat.compare (hour a) (hour b))
          (lex (Nat.compare (minute a) (minute b))
            (Nat.compare (second a) (second b)))))).

Definition month_compare (a b : datetime) : comparison :=
  lex (Nat.compare (year a) (year b)) (Nat.compare (month a) (month b)).

(** The fields of a [datetime] (years up to 9999). *)
Definition dt_valid (t : datetime) : bool :=
  Nat.ltb (year t) (10 ^ 4) && Nat.ltb (month t) (10 ^ 2) && Nat.ltb (day t) (10 ^ 2) &&
  Nat.ltb (hour t) (10 ^ 2) && Nat.ltb (minute t) (10 ^ 2) && Nat.ltb (second t) (10 ^ 2).

(** A clock that ticks one second per call, and the identity as a stand-in
    for SHA-256 in concrete runs. *)
Definition clock_2025 (n : nat) : datetime := mkDT 2025 1 1 0 0 n.
Definition sha_id (b : list Byte.byte) : list Byte.byte := b.

(** The books library, whose journal disappears before it is packed, and
    the manga library. *)
Definition books_vanishing : list (string * node) :=
  [("metadata.db", File (Some (mkStat 4096 (Qmake 34011 20))));
   ("metadata.db-journal", File None)].
Definition manga_files : list (string * node) :=
  [("metadata.db", File (Some (mkStat 2048 (Qmake 1700 1))))].

(** Both libraries on disk, no state yet. *)
Definition w_vanished : world :=
  mkWorld []
    [("C:\Users\user\Books Library", books_vanishing);
     ("C:\Users\user\Manga Library", manga_files)]
    0 [].

(** A world where the monthly snapshot of January 2025 of books exists. *)
Definition w_monthly_exists : world :=
  mkWorld [("books_library_2025-01-01_00-00-00.zip", Zip ["metadata.db"] true);
           ("books_library_2025-01_monthly.zip", Zip ["metadata.db"] true)]
    [] 0 [].

(** A backup directory with three recent archives and a monthly snapshot
    of books, the state file of books and an archive of manga. *)
Definition w_prune : world :=
  mkWorld [("books_library_state.txt", Text "h");
           ("books_library_2025-01-02_00-00-00.zip", Zip [] true);
           ("books_library_2025-01-01_00-00-00.zip", Zip [] true);
           ("books_library_2025-01_monthly.zip", Zip [] true);
           ("books_library_2025-01-03_00-00-00.zip", Zip [] true);
           ("manga_library_2024-12-31_00-00-00.zip", Zip [] true)]
    [] 0 [].

(** A stand-in for SHA-256 whose digests are never empty. *)
Definition sha_tag (b : list Byte.byte) : list Byte.byte := Byte.x2a :: b.

(** *** Names *)

(** A character that is no path separator and no [m]: the characters of
    the time stamps and of the fixed parts [_library_] and [.zip]. *)
Definition plain (c : ascii) : Prop := is_sep c = false /\ c <> "m"%char.

End ProducerReasoning.

(** ** Observations on the consumer's log *)
Module ConsumerReasoning.
Import Consumer.


(** What one iteration for library [(q, dq)] may log. *)
Definition own_event (q dq : string) (e : event) : Prop :=
  match e with
  | Visit q' => q' = q
  | Stop => True
  | Start => False
  | Clear x => x = dq
  | Extract _ x => x = dq
  | WriteState n _ => n = local_state_file q
  end.

(** An action of the consumer on library [p] restored into [d]. *)
Definition p_action (p d : string) (e : event) : Prop :=
  e = Clear d \/ (exists b, e = Extract b d) \/
  (exists v, e = WriteState (local_state_file p) v).

(** The stop command an iteration issues before restoring, given the value
    of [any_restored]. *)
Definition stop_part (b : bool) : list event := if b then [] else [Stop].

(** Every clearing of a library directory in [l] comes after a stop
    command. *)
Definition stop_before_clear (l : list event) : Prop :=
  forall l1 d l2, l = l1 ++ Clear d :: l2 -> In Stop l1.

End ConsumerReasoning.

(** ** [clear_directory] of [restore_backup.py] on a directory tree *)
Module FS.

(** A node of the file system; a symbolic link holds its target, an
    absolute path. *)
#[warnings="-register-all"]
Inductive fnode :=
| FFile
| FDir (entries : list (string * fnode))
| FLink (target : list string).

Definition path := list string.

Definition path_str (p : path) : string := String.concat "/" p.

Fixpoint assoc {A} (l : list (string * A)) (k : string) : option A :=
  match l with
  | [] => None
  | (n, x) :: r => if String.eqb n k then Some x else assoc r k
  end.

(** The node at a path, without following links ([os.lstat]). *)
Fixpoint lookup (p : path) (n : fnode) : option fnode :=
  match p with
  | [] => Some n
  | c :: r =>
      match n with
      | FDir es => match assoc es c with Some m => lookup r m | None => None end
      | _ => None
      end
  end.

(** Applies [f] to the node at [p], when there is one. *)
Fixpoint update_at (p : path) (f : fnode -> fnode) (n : fnode) : fnode :=
  match p with
  | [] => f n
  | c :: r =>
      match n with
      | FDir es =>
          FDir (map (fun e => if String.eqb (fst e) c
                              then (fst e, update_at r f (snd e)) else e) es)
      | _ => n
      end
  end.

(** [os.makedirs(p, exist_ok=True)]: creates the missing directories; an
    existing node of the path that is not a directory makes it fail (for a
    symbolic link on the path, which [makedirs] would follow, the model
    fails as well: such paths are outside this model). *)
Fixpoint mkdirs (p : path) (n : fnode) : option fnode :=
  match n with
  | FDir es =>
      match p with
      | [] => Some n
      | c :: r =>
          match assoc es c with
          | Some m =>
              match mkdirs r m with
              | Some m' => Some (FDir (map (fun e => if String.eqb (fst e) c
                                                     then (fst e, m') else e) es))
              | None => None
              end
          | None =>
              match mkdirs r (FDir []) with
              | Some m' => Some (FDir (es ++ [(c, m')]))
              | None => None
              end
          end
      end
  | _ => None
  end.

Definition FM := M fnode.

Definition makedirs (p : path) : FM unit :=
  fun fs => match mkdirs p fs with
            | Some fs' => Ok tt fs'
            | None => Exc (OSError (path_str p)) fs
            end.

(** [os.listdir(p)] *)
Definition listdir (p : path) : FM (list string) :=
  fun fs => match lookup p fs with
            | Some (FDir es) => Ok (map fst es) fs
            | Some _ => Exc (OSError (path_str p)) fs
            | None => Exc (FileNotFoundError (path_str p)) fs
            end.

(** [os.path.isdir]: follows symbolic links, up to [fuel] of them. *)
Fixpoint isdir_node (fuel : nat) (fs n : fnode) : bool :=
  match n with
  | FDir _ => true
  | FFile => false
  | FLink t =>
      match fuel with
      | 0 => false
      | S f => match lookup t fs with Some m => isdir_node f fs m | None => false end
      end
  end.

Definition isdir (fs : fnode) (p : path) : bool :=
  match lookup p fs with Some n => isdir_node 40 fs n | None => false end.

(** [os.path.islink] *)
Definition islink (fs : fnode) (p : path) : bool :=
  match lookup p fs with Some (FLink _) => true | _ => false end.

(** Unlinks the entry [name] of the directory at [d]. *)
Definition delete_entry (d : path) (name : string) : fnode -> fnode :=
  update_at d (fun n => match n with
                        | FDir es => FDir (filter (fun e => negb (String.eqb (fst e) name)) es)
                        | _ => n
                        end).

(** [shutil.rmtree(d/name)]: refuses a symbolic link; removes a directory
    with everything below it, unlinking the links it contains. *)
Definition rmtree (d : path) (name : string) : FM unit :=
  fun fs => match lookup (d ++ [name]) fs with
            | Some (FDir _) => Ok tt (delete_entry d name fs)
            | Some _ => Exc (OSError (path_str (d ++ [name]))) fs
            | None => Exc (FileNotFoundError (path_str (d ++ [name]))) fs
            end.

(** [os.remove(d/name)]: unlinks a file or a symbolic link, refuses a
    directory. *)
Definition os_remove (d : path) (name : string) : FM unit :=
  fun fs => match lookup (d ++ [name]) fs with
            | Some (FDir _) => Exc (OSError (path_str (d ++ [name]))) fs
            | Some _ => Ok tt (delete_entry d name fs)
            | None => Exc (FileNotFoundError (path_str (d ++ [name]))) fs
            end.

(** The body of the [for entry in os.listdir(dir_path)] loop. *)
Definition clear_entry (dir_path : path) (_ : unit) (entry : string) : FM unit :=
  let full := dir_path ++ [entry] in
  fs <- get ;;
  if isdir fs full && negb (islink fs full)
  then rmtree dir_path entry
  else os_remove dir_path entry.

Definition clear_directory (dir_path : path) : FM unit :=
  makedirs dir_path ;;;
  entries <- listdir dir_path ;;
  foldM (clear_entry dir_path) entries tt.

(** Every node met along [p] is a directory (nodes not yet there are fine). *)
Fixpoint dirs_on (p : path) (n : fnode) : bool :=
  match n with
  | FDir es =>
      match p with
      | [] => true
      | c :: r => match assoc es c with Some m => dirs_on r m | None => true end
      end
  | _ => false
  end.

Definition is_prefix (p q : path) : Prop := exists r, q = p ++ r.

(** A library directory holding a file, a subdirectory, a symbolic link to a
    directory outside it and a symbolic link to a file outside it. *)
Definition lib_dest : path := ["lib"].
Definition sample_fs : fnode :=
  FDir [("lib", FDir [("metadata.db", FFile);
                      ("covers", FDir [("a.jpg", FFile)]);
                      ("shared_link", FLink ["shared"]);
                      ("file_link", FLink ["shared"; "x.txt"])]);
        ("shared", FDir [("x.txt", FFile); ("sub", FDir [])])].

End FS.

(* ================================================================== *)
(** * Properties *)

(** ** Generic lemmas on the helpers *)

Lemma lookup_write_dir d n m c :
  lookup_dir (write_dir d n c) m =
  if String.eqb n m then Some c else lookup_dir d m.
Proof.
  induction d as [|[k c'] r IH]; simpl.
  - destruct (String.eqb n m); reflexivity.
  - destruct (String.eqb k n) eqn:Hkn; simpl.
    + apply String.eqb_eq in Hkn; subst k.
      destruct (String.eqb n m); reflexivity.
    + rewrite IH. destruct (String.eqb k m) eqn:Hkm; [|reflexivity].
      apply String.eqb_eq in Hkm; subst k.
      destruct (String.eqb n m) eqn:Hnm; [|reflexivity].
      apply String.eqb_eq in Hnm; subst n. rewrite String.eqb_refl in Hkn.
      discriminate.
Qed.

(** ** Insertion sort *)
Section SortProps.
Context {A : Type} (le : A -> A -> bool).

Lemma insert_perm x l : Permutation (insert le x l) (x :: l).
Proof.
  induction l as [|y r IH]; simpl; [reflexivity|].
  destruct (le x y); [reflexivity|].
  rewrite IH. apply perm_swap.
Qed.

Lemma sort_perm l : Permutation (sort le l) l.
Proof.
  induction l as [|x r IH]; simpl; [reflexivity|].
  rewrite insert_perm, IH. reflexivity.
Qed.

Hypothesis le_total : forall a b, le a b = true \/ le b a = true.
Hypothesis le_trans : forall a b c, le a b = true -> le b c = true -> le a c = true.

Lemma insert_sorted x l :
  StronglySorted (fun a b => le a b = true) l ->
  StronglySorted (fun a b => le a b = true) (insert le x l).
Proof.
  induction l as [|y r IH]; simpl; intros Hs.
  - repeat constructor.
  - apply StronglySorted_inv in Hs as [Hr Hy].
    destruct (le x y) eqn:Hxy.
    + constructor; [constructor; assumption|].
      constructor; [exact Hxy|]. eapply Forall_impl; [|exact Hy].
      intros z Hz. exact (le_trans _ _ _ Hxy Hz).
    + constructor; [exact (IH Hr)|].
      apply Forall_forall. intros z Hz.
      apply (Permutation_in _ (insert_perm x r)) in Hz as [<-|Hz].
      * destruct (le_total x y) as [H|H]; [congruence | exact H].
      * rewrite Forall_forall in Hy. exact (Hy z Hz).
Qed.

Lemma sort_sorted l : StronglySorted (fun a b => le a b = true) (sort le l).
Proof.
  induction l as [|x r IH]; simpl; [constructor|]. apply insert_sorted, IH.
Qed.

End SortProps.

(** Two strongly sorted permutations of each other are equal, when the
    order is antisymmetric on their elements. *)
Lemma sorted_perm_unique {A} (R : A -> A -> Prop) l1 l2 :
  StronglySorted R l1 -> StronglySorted R l2 -> Permutation l1 l2 ->
  (forall x y, In x l1 -> In y l1 -> R x y -> R y x -> x = y) ->
  l1 = l2.
Proof.
  revert l2. induction l1 as [|x r1 IH]; intros l2 S1 S2 P Anti.
  - symmetry. apply Permutation_nil, P.
  - destruct l2 as [|y r2].
    + apply Permutation_sym, Permutation_nil in P. discriminate.
    + apply StronglySorted_inv in S1 as [S1 F1].
      apply StronglySorted_inv in S2 as [S2 F2].
      assert (Exy : x = y).
      { assert (Hx : In x (y :: r2)) by (apply (Permutation_in _ P); left; reflexivity).
        assert (Hy : In y (x :: r1))
          by (apply (Permutation_in _ (Permutation_sym P)); left; reflexivity).
        destruct Hx as [Hx|Hx]; [symmetry; exact Hx|].
        destruct Hy as [Hy|Hy]; [exact Hy|].
        rewrite Forall_forall in F1, F2.
        apply Anti; [left; reflexivity | right; exact Hy | apply F1, Hy | apply F2, Hx]. }
      subst y. f_equal. apply IH; [exact S1 | exact S2 | |].
      * exact (Permutation_cons_inv P).
      * intros a b Ha Hb. apply Anti; right; assumption.
Qed.

Lemma sort_map {A B} (leA : A -> A -> bool) (leB : B -> B -> bool) (f : A -> B) l :
  (forall a b, leB (f a) (f b) = leA a b) ->
  sort leB (map f l) = map f (sort leA l).
Proof.
  intros Hf. induction l as [|x r IH]; simpl; [reflexivity|].
  rewrite IH. generalize (sort leA r) as s. induction s as [|y s IHs]; simpl;
    [reflexivity|].
  rewrite Hf. destruct (leA x y); [reflexivity|]. rewrite IHs. reflexivity.
Qed.

Lemma Permutation_filter' {A} (f : A -> bool) l l' :
  Permutation l l' -> Permutation (filter f l) (filter f l').
Proof.
  induction 1 as [|x l l' _ IH|x y l|l l' l'' _ IH1 _ IH2]; simpl.
  - constructor.
  - destruct (f x); [constructor|]; exact IH.
  - destruct (f x), (f y); try constructor; reflexivity.
  - etransitivity; eassumption.
Qed.

(** ** The order of [str] *)

Lemma string_OT_compare a b : OrdersEx.String_as_OT.compare a b = String.compare a b.
Proof.
  revert b. induction a as [|x a IH]; intros [|y b]; reflexivity.
Qed.

Lemma str_lt_trans a b c :
  String.compare a b = Lt -> String.compare b c = Lt -> String.compare a c = Lt.
Proof.
  rewrite <- !string_OT_compare. intros H1 H2.
  exact (StrictOrder_Transitive (R := OrdersEx.String_as_OT.lt) a b c H1 H2).
Qed.

Lemma str_le_total a b : str_le a b = true \/ str_le b a = true.
Proof. apply String.leb_total. Qed.

Lemma str_le_cases a b : str_le a b = true <-> a = b \/ String.compare a b = Lt.
Proof.
  unfold str_le, String.leb. split.
  - destruct (String.compare a b) eqn:E; intros H; try discriminate.
    + left. apply String.compare_eq_iff, E.
    + right. reflexivity.
  - intros [<-|E].
    + assert (E : String.compare a a = Eq).
      { rewrite <- string_OT_compare.
        destruct (OrdersEx.String_as_OT.compare_spec a a) as [|H|H]; [reflexivity| |];
          exfalso; exact (StrictOrder_Irreflexive (R := OrdersEx.String_as_OT.lt) a H). }
      rewrite E. reflexivity.
    + rewrite E. reflexivity.
Qed.

Lemma str_le_trans a b c : str_le a b = true -> str_le b c = true -> str_le a c = true.
Proof.
  rewrite !str_le_cases. intros [<-|H1] [<-|H2]; auto.
  right. exact (str_lt_trans _ _ _ H1 H2).
Qed.

Lemma str_le_antisym a b : str_le a b = true -> str_le b a = true -> a = b.
Proof. apply String.leb_antisym. Qed.

Lemma str_le_refl a : str_le a a = true.
Proof. apply str_le_cases. left. reflexivity. Qed.

Lemma compare_append_same p a b :
  String.compare (p +++ a) (p +++ b) = String.compare a b.
Proof.
  induction p as [|c p IH]; simpl; [reflexivity|].
  unfold Ascii.compare. rewrite N.compare_refl. exact IH.
Qed.

Lemma str_le_append_same p a b : str_le (p +++ a) (p +++ b) = str_le a b.
Proof. unfold str_le, String.leb. rewrite compare_append_same. reflexivity. Qed.

(** [str.strip()] is idempotent. *)

Lemma lstrip_l_starts l : starts_non_space (lstrip_l l).
Proof.
  induction l as [|c r IH]; simpl; [exact I|].
  destruct (is_space c) eqn:Hc; [exact IH | exact Hc].
Qed.

Lemma lstrip_l_id l : starts_non_space l -> lstrip_l l = l.
Proof. destruct l as [|c r]; simpl; [reflexivity|]. intros H; rewrite H; reflexivity. Qed.

Lemma lstrip_l_suffix l : exists pre, l = pre ++ lstrip_l l.
Proof.
  induction l as [|c r [pre IH]]; simpl; [exists []; reflexivity|].
  destruct (is_space c).
  - exists (c :: pre). simpl. rewrite <- IH. reflexivity.
  - exists []. reflexivity.
Qed.

Lemma strip_idem s : strip (strip s) = strip s.
Proof.
  unfold strip. rewrite list_ascii_of_string_of_list_ascii.
  set (a := lstrip_l (list_ascii_of_string s)).
  set (b := lstrip_l (rev a)).
  assert (Ha : starts_non_space a) by apply lstrip_l_starts.
  assert (Hb : starts_non_space b) by apply lstrip_l_starts.
  assert (Hrb : starts_non_space (rev b)).
  { destruct (lstrip_l_suffix (rev a)) as [pre Hpre]. fold b in Hpre.
    apply (f_equal (@rev ascii)) in Hpre.
    rewrite rev_involutive, rev_app_distr in Hpre.
    destruct (rev b) as [|c r] eqn:E; [exact I|].
    rewrite Hpre in Ha. exact Ha. }
  rewrite (lstrip_l_id (rev b) Hrb), rev_involutive, (lstrip_l_id b Hb).
  reflexivity.
Qed.

Module ConsumerProofs.
Import Consumer ConsumerReasoning.


(** One iteration of the loop ends in one of three ways: it continues
    without restoring, it raises, or it restores and records the state. *)
Lemma body_spec b q dq w :
  (exists new,
     body b (q, dq) w =
       Ok b (mkWorld (backup_dir_exists w) (bdir w) (log w ++ Visit q :: new))
     /\ incl new [Stop]) \/
  (exists e new,
     body b (q, dq) w =
       Exc e (mkWorld (backup_dir_exists w) (bdir w) (log w ++ Visit q :: new))
     /\ incl new [Stop; Clear dq]) \/
  (exists s bk,
     lookup_dir (bdir w) (remote_state_file q) = Some (Text s) /\
     String.eqb (strip s) "" = false /\
     body b (q, dq) w =
       Ok true (mkWorld (backup_dir_exists w)
                  (write_dir (bdir w) (local_state_file q) (Text (strip s)))
                  (log w ++ Visit q :: (if b then [] else [Stop]) ++
                   [Clear dq; Extract bk dq;
                    WriteState (local_state_file q) (strip s)]))).
Proof.
  destruct w as [bde d lg]; destruct b;
  cbv beta iota zeta delta [body bind emit read_state get ret raise
    find_latest_non_monthly_backup restore_library_from_backup
    write_state put stop_calibre_container bdir log backup_dir_exists];
  repeat (simpl; match goal with
                 | |- context [match ?x with _ => _ end] =>
                     lazymatch x with
                     | context [match _ with _ => _ end] => fail
                     | _ => destruct x eqn:?
                     end
                 end);
  simpl; subst; rewrite <- ?app_assoc; simpl; try discriminate;
  first
    [ left; eexists; split; [reflexivity | unfold incl; simpl; tauto]
    | right; left; do 2 eexists; split;
      [reflexivity | unfold incl; simpl; tauto]
    | right; right; do 2 eexists; split; [first [reflexivity | eassumption]|];
      split; [eassumption | reflexivity]
    ].
Qed.



(** The frame of one iteration: it only appends to the log, logs its own
    events, and writes no file but its own consumer state file. *)
Lemma body_frame b q dq w :
  let w' := res_world (body b (q, dq) w) in
  backup_dir_exists w' = backup_dir_exists w /\
  (forall n, n <> local_state_file q ->
             lookup_dir (bdir w') n = lookup_dir (bdir w) n) /\
  exists new, log w' = log w ++ new /\ Forall (own_event q dq) new.
Proof.
  destruct (body_spec b q dq w)
    as [[new [E Hinc]]|[[e [new [E Hinc]]]|[s [bk [L [S E]]]]]];
    rewrite E; simpl; (split; [reflexivity|]); split.
  - reflexivity.
  - exists (Visit q :: new). split; [reflexivity|].
    constructor; [reflexivity|]. apply Forall_forall. intros x Hx.
    apply Hinc in Hx. destruct Hx as [<-|[]]. exact I.
  - reflexivity.
  - exists (Visit q :: new). split; [reflexivity|].
    constructor; [reflexivity|]. apply Forall_forall. intros x Hx.
    apply Hinc in Hx. destruct Hx as [<-|[<-|[]]]; simpl; auto.
  - intros n Hn. rewrite lookup_write_dir.
    destruct (String.eqb (local_state_file q) n) eqn:Hq; [|reflexivity].
    apply String.eqb_eq in Hq. congruence.
  - eexists. split; [reflexivity|].
    destruct b; simpl; repeat constructor.
Qed.

Lemma foldM_app {W A B} (f : B -> A -> M W B) l1 l2 b w :
  foldM f (l1 ++ l2) b w = bind (foldM f l1 b) (foldM f l2) w.
Proof.
  revert b w. induction l1 as [|x r IH]; intros b w; simpl.
  - reflexivity.
  - unfold bind in *. destruct (f b x w) as [b' w'|e w']; [|reflexivity].
    apply IH.
Qed.

(** The frame of the loop over a list of libraries. *)
Lemma fold_frame libs b w :
  let w' := res_world (foldM body libs b w) in
  backup_dir_exists w' = backup_dir_exists w /\
  (forall n, (forall q dq, In (q, dq) libs -> n <> local_state_file q) ->
             lookup_dir (bdir w') n = lookup_dir (bdir w) n) /\
  exists new, log w' = log w ++ new /\
    Forall (fun e => exists q dq, In (q, dq) libs /\ own_event q dq e) new.
Proof.
  revert b w. induction libs as [|[q dq] r IH]; intros b w; cbn [foldM].
  - split; [reflexivity|]. split; [reflexivity|].
    exists []. split; [symmetry; apply app_nil_r | constructor].
  - unfold bind.
    destruct (body_frame b q dq w) as [B1 [L1 [new1 [G1 F1]]]].
    destruct (body b (q, dq) w) as [b1 w1|e w1] eqn:E;
      cbv beta iota; simpl res_world in *.
    + destruct (IH b1 w1) as [B2 [L2 [new2 [G2 F2]]]].
      split; [rewrite B2; exact B1|]. split.
      * intros n Hn. rewrite L2.
        -- apply L1, (Hn q dq). left. reflexivity.
        -- intros q' dq' Hin. apply (Hn q' dq'). right. exact Hin.
      * exists (new1 ++ new2). rewrite G2, G1, app_assoc. split; [reflexivity|].
        apply Forall_app. split.
        -- eapply Forall_impl; [|exact F1]. intros ev He.
           exists q, dq. split; [left; reflexivity | exact He].
        -- eapply Forall_impl; [|exact F2]. intros ev [q' [dq' [Hin He]]].
           exists q', dq'. split; [right; exact Hin | exact He].
    + split; [exact B1|]. split.
      * intros n Hn. apply L1, (Hn q dq). left. reflexivity.
      * exists new1. split; [exact G1|].
        eapply Forall_impl; [|exact F1]. intros ev He.
        exists q, dq. split; [left; reflexivity | exact He].
Qed.

(** A library whose consumer state equals the producer state is left
    alone: the iteration only announces it. *)
Lemma body_in_sync b q dq w s t :
  lookup_dir (bdir w) (remote_state_file q) = Some (Text s) ->
  lookup_dir (bdir w) (local_state_file q) = Some (Text t) ->
  strip t = strip s ->
  body b (q, dq) w =
    Ok b (mkWorld (backup_dir_exists w) (bdir w) (log w ++ [Visit q])).
Proof.
  intros Hr Hl Hts. destruct w as [bde d lg]; simpl in *.
  cbv beta iota zeta delta [body bind emit read_state get ret
    bdir log backup_dir_exists].
  rewrite Hr. simpl.
  destruct (String.eqb (strip s) "") eqn:Hs; [reflexivity|].
  simpl. rewrite Hl, Hts, Hs. simpl. rewrite String.eqb_refl. reflexivity.
Qed.

(** ** Convergence of one library [(p, d)] placed among others *)
Section Converge.
Variables (pre post : list (string * string)) (p d : string).
Hypothesis Hother : forall q dq, In (q, dq) (pre ++ post) ->
  dq <> d /\ local_state_file q <> local_state_file p /\
  local_state_file q <> remote_state_file p.
Hypothesis Hself : local_state_file p <> remote_state_file p.


Lemma others_no_action (L : list (string * string)) new :
  incl L (pre ++ post) ->
  Forall (fun e => exists q dq, In (q, dq) L /\ own_event q dq e) new ->
  forall e, In e new -> ~ p_action p d e.
Proof.
  intros HL HF e He. rewrite Forall_forall in HF.
  destruct (HF e He) as [q [dq [Hin Hown]]].
  destruct (Hother q dq (HL _ Hin)) as [Hd [Hl _]].
  intros [->|[[b ->]|[v ->]]]; simpl in Hown; congruence.
Qed.

Lemma frame_pre_keeps w n :
  (n = local_state_file p \/ n = remote_state_file p) ->
  forall L, incl L (pre ++ post) -> forall b,
  lookup_dir (bdir (res_world (foldM body L b w))) n = lookup_dir (bdir w) n.
Proof.
  intros Hn L HL b. destruct (fold_frame L b w) as [_ [Hk _]].
  apply Hk. intros q dq Hin. destruct (Hother q dq (HL _ Hin)) as [_ [H1 H2]].
  destruct Hn as [->| ->]; auto.
Qed.

(** A second run, on a world where the consumer state of [p] equals the
    producer state, does nothing to library [p]. *)
Lemma second_run_idle w s t :
  lookup_dir (bdir w) (remote_state_file p) = Some (Text s) ->
  lookup_dir (bdir w) (local_state_file p) = Some (Text t) ->
  strip t = strip s ->
  exists new,
    log (res_world (main_with (pre ++ (p, d) :: post) w)) = log w ++ new /\
    forall e, In e new -> ~ p_action p d e.
Proof.
  intros Hr Hl Hts. unfold main_with, bind, get.
  destruct (negb (backup_dir_exists w)).
  { exists []. rewrite app_nil_r. split; [reflexivity | intros e []]. }
  rewrite foldM_app. unfold bind.
  assert (Hpre : incl pre (pre ++ post)) by apply incl_appl, incl_refl.
  assert (Hpost : incl post (pre ++ post)) by apply incl_appr, incl_refl.
  pose proof (frame_pre_keeps w (remote_state_file p) (or_intror eq_refl)
                pre Hpre false) as Kr.
  pose proof (frame_pre_keeps w (local_state_file p) (or_introl eq_refl)
                pre Hpre false) as Kl.
  destruct (fold_frame pre false w) as [_ [_ [new1 [G1 F1]]]].
  destruct (foldM body pre false w) as [b1 w1|e1 w1];
    cbv beta iota; simpl res_world in Kr, Kl, G1.
  2:{ exists new1. split; [exact G1|]. exact (others_no_action pre new1 Hpre F1). }
  rewrite Hr in Kr. rewrite Hl in Kl. cbn [foldM]. unfold bind.
  rewrite (body_in_sync b1 p d w1 s t Kr Kl Hts).
  destruct (fold_frame post b1
              (mkWorld (backup_dir_exists w1) (bdir w1) (log w1 ++ [Visit p])))
    as [_ [_ [new3 [G3 F3]]]].
  assert (Hno3 := others_no_action post new3 Hpost F3).
  destruct (foldM body post b1 _) as [b3 w3|e3 w3];
    cbv beta iota; cbn [res_world] in G3 |- *.
  - destruct b3; simpl.
    + exists (new1 ++ Visit p :: new3 ++ [Start]).
      rewrite G3; cbn [log]; rewrite G1, <- !app_assoc.
      split; [reflexivity|].
      intros e He. apply in_app_or in He as [He|[<-|He]].
      * exact (others_no_action pre new1 Hpre F1 _ He).
      * intros [H|[[b H]|[v H]]]; discriminate.
      * apply in_app_or in He as [He|[<-|[]]]; [apply Hno3, He|].
        intros [H|[[b H]|[v H]]]; discriminate.
    + exists (new1 ++ Visit p :: new3).
      rewrite G3; cbn [log]; rewrite G1, <- !app_assoc.
      split; [reflexivity|].
      intros e He. apply in_app_or in He as [He|[<-|He]].
      * exact (others_no_action pre new1 Hpre F1 _ He).
      * intros [H|[[b H]|[v H]]]; discriminate.
      * apply Hno3, He.
  - exists (new1 ++ Visit p :: new3).
    rewrite G3; cbn [log]; rewrite G1, <- !app_assoc.
      split; [reflexivity|].
    intros e He. apply in_app_or in He as [He|[<-|He]].
    + exact (others_no_action pre new1 Hpre F1 _ He).
    + intros [H|[[b H]|[v H]]]; discriminate.
    + apply Hno3, He.
Qed.

(** Splits a hypothesis [In e (l1 ++ l2)] or [In e (x :: l)] into its
    cases. *)
Ltac split_in H :=
  repeat match type of H with
         | In _ (_ ++ _) => apply in_app_or in H; destruct H as [H|H]
         | In _ (_ :: _) => destruct H as [H|H]
         | In _ [] => destruct H
         end.

(** A run in which library [p] is extracted records, right after the
    extraction, the producer state that triggered it as consumer state. *)
Lemma first_run_records w bk :
  let w' := res_world (main_with (pre ++ (p, d) :: post) w) in
  In (Extract bk d) (log w') -> ~ In (Extract bk d) (log w) ->
  exists s lg1 lg2,
    lookup_dir (bdir w) (remote_state_file p) = Some (Text s) /\
    String.eqb (strip s) "" = false /\
    log w' = lg1 ++ Extract bk d :: WriteState (local_state_file p) (strip s)
                :: lg2 /\
    lookup_dir (bdir w') (local_state_file p) = Some (Text (strip s)) /\
    lookup_dir (bdir w') (remote_state_file p) = Some (Text s).
Proof.
  intros w' Hin Hnot. subst w'. revert Hin. unfold main_with, bind, get.
  destruct (negb (backup_dir_exists w)).
  { intros Hin. exfalso. exact (Hnot Hin). }
  rewrite foldM_app. unfold bind.
  assert (Hpre : incl pre (pre ++ post)) by apply incl_appl, incl_refl.
  assert (Hpost : incl post (pre ++ post)) by apply incl_appr, incl_refl.
  pose proof (frame_pre_keeps w (remote_state_file p) (or_intror eq_refl)
                pre Hpre false) as Kr.
  destruct (fold_frame pre false w) as [_ [_ [new1 [G1 F1]]]].
  assert (N1 := others_no_action pre new1 Hpre F1).
  assert (NE : forall b, p_action p d (Extract b d))
    by (intros b; right; left; exists b; reflexivity).
  destruct (foldM body pre false w) as [b1 w1|e1 w1];
    cbv beta iota; cbn [res_world] in Kr, G1 |- *.
  2:{ rewrite G1. intros Hin; exfalso; split_in Hin; [exact (Hnot Hin)|].
      exact (N1 _ Hin (NE bk)). }
  cbn [foldM]. unfold bind.
  destruct (body_spec b1 p d w1)
    as [[new [E Hinc]]|[[e [new [E Hinc]]]|[s [bk' [L [S E]]]]]];
    rewrite E; cbv beta iota.
  - destruct (fold_frame post b1
      (mkWorld (backup_dir_exists w1) (bdir w1) (log w1 ++ Visit p :: new)))
      as [_ [_ [new3 [G3 F3]]]].
    assert (N3 := others_no_action post new3 Hpost F3).
    destruct (foldM body post b1 _) as [b3 w3|e3 w3];
      cbv beta iota; cbn [res_world] in G3 |- *;
      [destruct b3; cbn [start_calibre_container emit ret res_world log]|];
      rewrite ?G3; cbn [log]; rewrite G1; intros Hin; exfalso; split_in Hin;
      try solve [ exact (Hnot Hin) | exact (N1 _ Hin (NE bk))
                | exact (N3 _ Hin (NE bk)) | discriminate ];
      apply Hinc in Hin; destruct Hin as [Hin|[]]; discriminate.
  - cbn [res_world log]. rewrite G1. intros Hin; exfalso; split_in Hin;
      try solve [ exact (Hnot Hin) | exact (N1 _ Hin (NE bk)) | discriminate ];
      apply Hinc in Hin; destruct Hin as [Hin|[Hin|[]]]; discriminate.
  - set (w2 := mkWorld _ _ _).
    assert (K : forall n, n = local_state_file p \/ n = remote_state_file p ->
              lookup_dir (bdir (res_world (foldM body post true w2))) n =
              lookup_dir (bdir w2) n).
    { intros n Hn. destruct (fold_frame post true w2) as [_ [Hk _]].
      apply Hk. intros q dq Hq. destruct (Hother q dq (Hpost _ Hq)) as [_ [H1 H2]].
      destruct Hn as [->| ->]; auto. }
    assert (Kl := K _ (or_introl eq_refl)).
    assert (Kr2 := K _ (or_intror eq_refl)).
    cbn [bdir w2] in Kl, Kr2. rewrite !lookup_write_dir, String.eqb_refl in Kl.
    rewrite lookup_write_dir in Kr2.
    replace (String.eqb (local_state_file p) (remote_state_file p)) with false
      in Kr2 by (symmetry; apply String.eqb_neq; exact Hself).
    rewrite L in Kr2. rewrite L in Kr.
    destruct (fold_frame post true w2) as [_ [_ [new3 [G3 F3]]]].
    assert (N3 := others_no_action post new3 Hpost F3).
    destruct (foldM body post true w2) as [b3 w3|e3 w3];
      cbv beta iota; cbn [res_world] in G3, Kl, Kr2 |- *;
      [destruct b3; cbn [start_calibre_container emit ret res_world log bdir]|];
      rewrite ?G3; subst w2; cbn [log]; rewrite G1; intros Hin;
      (assert (bk' = bk) as <-
         by (destruct b1; split_in Hin;
             solve [ exfalso; exact (Hnot Hin) | exfalso; exact (N1 _ Hin (NE bk))
                   | exfalso; exact (N3 _ Hin (NE bk)) | discriminate
                   | congruence ]));
      exists s, (log w ++ new1 ++ Visit p :: (if b1 then [] else [Stop]) ++
                 [Clear d]);
      eexists; (split; [symmetry; exact Kr|]); (split; [exact S|]);
      rewrite <- !app_assoc; (split; [cbn; rewrite <- !app_assoc; reflexivity|]);
      split; assumption.
Qed.

Lemma read_state_text w n s :
  lookup_dir (bdir w) n = Some (Text s) -> String.eqb (strip s) "" = false ->
  read_state n w = Ok (Some (strip s)) w.
Proof.
  intros Hl Hs. unfold read_state, bind, get. rewrite Hl, Hs. reflexivity.
Qed.

Lemma restore_converges_gen w bk :
  let libs := pre ++ (p, d) :: post in
  let w' := res_world (main_with libs w) in
  log w = [] -> In (Extract bk d) (log w') ->
  exists v lg1 lg2,
    read_state (remote_state_file p) w = Ok (Some v) w /\
    log w' = lg1 ++ Extract bk d :: WriteState (local_state_file p) v :: lg2 /\
    read_state (local_state_file p) w' = Ok (Some v) w' /\
    read_state (remote_state_file p) w' = Ok (Some v) w' /\
    forall e, In e (log (res_world (main_with libs
                       (mkWorld (backup_dir_exists w') (bdir w') [])))) ->
      e <> Clear d /\ (forall b, e <> Extract b d) /\
      (forall v', e <> WriteState (local_state_file p) v').
Proof.
  intros libs w' Hlog Hin.
  destruct (first_run_records w bk Hin) as [s [lg1 [lg2 [Hr [Hs [Hl [Kl Kr]]]]]]].
  { rewrite Hlog. intros []. }
  exists (strip s), lg1, lg2.
  split; [apply read_state_text; assumption|].
  split; [exact Hl|].
  split; [rewrite <- (strip_idem s);
          apply read_state_text; [exact Kl | rewrite !strip_idem; exact Hs]|].
  split; [apply read_state_text; assumption|].
  intros e He.
  destruct (second_run_idle (mkWorld (backup_dir_exists w') (bdir w') [])
              s (strip s) Kr Kl (strip_idem s)) as [new [G N]].
  cbn [log] in G. unfold libs in He. rewrite G in He. simpl in He.
  assert (Hn := N e He).
  split; [intros ->; apply Hn; left; reflexivity|].
  split; [intros b ->; apply Hn; right; left; exists b; reflexivity|].
  intros v' ->; apply Hn; right; right; exists v'; reflexivity.
Qed.

End Converge.

Lemma LIBRARIES_split p d :
  In (p, d) LIBRARIES ->
  exists pre post, LIBRARIES = pre ++ (p, d) :: post /\
    (forall q dq, In (q, dq) (pre ++ post) ->
       dq <> d /\ local_state_file q <> local_state_file p /\
       local_state_file q <> remote_state_file p) /\
    local_state_file p <> remote_state_file p.
Proof.
  unfold local_state_file, remote_state_file, LOCAL_STATE_SUFFIX.
  intros [H|[H|[]]]; injection H as <- <-.
  - exists [], [("manga", "calibre-libraries/Manga Library")].
    split; [reflexivity|]. split; [|discriminate].
    intros q dq [H|[]]; injection H as <- <-. repeat split; discriminate.
  - exists [("books", "calibre-libraries/Books Library")], [].
    split; [reflexivity|]. split; [|discriminate].
    intros q dq [H|[]]; injection H as <- <-. repeat split; discriminate.
Qed.





(** C9: whenever a consumer run restores a library (extracts its latest
    artifact into the library directory), it records as consumer state the
    producer state value that triggered the restore, right after the
    extraction; after the run, the consumer state read back equals the
    producer state, and an immediately following run with the producer state
    unchanged does nothing to that library: no clearing, no extraction, no
    state write. *)
Theorem restore_converges (w : world) (p d bk : string) :
  In (p, d) LIBRARIES -> log w = [] -> In (Extract bk d) (run w) ->
  let w' := res_world (main w) in
  exists v lg1 lg2,
    read_state (remote_state_file p) w = Ok (Some v) w /\
    run w = lg1 ++ Extract bk d :: WriteState (local_state_file p) v :: lg2 /\
    read_state (local_state_file p) w' = Ok (Some v) w' /\
    read_state (remote_state_file p) w' = Ok (Some v) w' /\
    forall e, In e (run (mkWorld (backup_dir_exists w') (bdir w') [])) ->
      e <> Clear d /\ (forall b, e <> Extract b d) /\
      (forall v', e <> WriteState (local_state_file p) v').
Proof.
  intros HL Hlog Hin.
  destruct (LIBRARIES_split p d HL) as [pre [post [E [Ho Hs]]]].
  unfold run, main in *. rewrite E in *.
  exact (restore_converges_gen pre post p d Ho Hs w bk Hlog Hin).
Qed.

Lemma restore_converges_witness :
  In ("manga", "calibre-libraries/Manga Library") LIBRARIES /\
  log w_books_no_artifact = [] /\
  In (Extract manga_zip "calibre-libraries/Manga Library") (run w_books_no_artifact) /\
  (let w' := res_world (main w_books_no_artifact) in
   exists v lg1 lg2,
     read_state (remote_state_file "manga") w_books_no_artifact =
       Ok (Some v) w_books_no_artifact /\
     run w_books_no_artifact =
       lg1 ++ Extract manga_zip "calibre-libraries/Manga Library" ::
       WriteState (local_state_file "manga") v :: lg2 /\
     read_state (local_state_file "manga") w' = Ok (Some v) w' /\
     read_state (remote_state_file "manga") w' = Ok (Some v) w' /\
     forall e, In e (run (mkWorld (backup_dir_exists w') (bdir w') [])) ->
       e <> Clear "calibre-libraries/Manga Library" /\
       (forall b, e <> Extract b "calibre-libraries/Manga Library") /\
       (forall v', e <> WriteState (local_state_file "manga") v')).
Proof.
  assert (H1 : In ("manga", "calibre-libraries/Manga Library") LIBRARIES)
    by (simpl; right; left; reflexivity).
  assert (H3 : In (Extract manga_zip "calibre-libraries/Manga Library")
                  (run w_books_no_artifact)).
  { vm_compute. do 5 right. left. reflexivity. }
  split; [exact H1|]. split; [reflexivity|]. split; [exact H3|].
  exact (restore_converges w_books_no_artifact "manga"
           "calibre-libraries/Manga Library" manga_zip H1 eq_refl H3).
Defined.

(** C1: the stop command is issued by every pending library met before the
    first successful restore, not once per run: with both libraries pending
    and only manga having an artifact, the run stops the service twice; and
    a run whose only pending library has no artifact stops the service and
    never starts it again. *)
Theorem stop_issued_per_pending_library :
  run w_books_no_artifact =
    [Visit "books"; Stop; Visit "manga"; Stop;
     Clear "calibre-libraries/Manga Library";
     Extract manga_zip "calibre-libraries/Manga Library";
     WriteState "manga_library_last_restored_state.txt" "h2"; Start] /\
  run w_only_books_pending = [Visit "books"; Stop; Visit "manga"].
Proof. split; vm_compute; reflexivity. Qed.


End ConsumerProofs.

(** ** The producer *)
Module ProducerProofs.
Import Producer FingerprintSpec.

(** *** The fingerprint *)

Lemma nodup_names_NoDup l : nodup_names l = true -> NoDup l.
Proof.
  induction l as [|x r IH]; simpl; intros H; [constructor|].
  apply andb_prop in H as [H1 H2]. constructor; [|exact (IH H2)].
  intros Hin. apply negb_true_iff in H1.
  assert (existsb (String.eqb x) r = true)
    by (apply existsb_exists; exists x; split; [exact Hin | apply String.eqb_refl]).
  congruence.
Qed.

Lemma NoDup_fst_eq {A B} (l : list (A * B)) a b :
  NoDup (map fst l) -> In a l -> In b l -> fst a = fst b -> a = b.
Proof.
  induction l as [|x r IH]; simpl; [intros _ []|].
  intros Hn Ha Hb E. inversion Hn as [|y m Hx Hr]; subst.
  destruct Ha as [<-|Ha], Hb as [<-|Hb]; auto.
  - exfalso. apply Hx. rewrite E. apply in_map, Hb.
  - exfalso. apply Hx. rewrite <- E. apply in_map, Ha.
Qed.

Lemma NoDup_fst_filter {A B} (f : A * B -> bool) l :
  NoDup (map fst l) -> NoDup (map fst (filter f l)).
Proof.
  induction l as [|x r IH]; simpl; [auto|].
  intros Hn. inversion Hn as [|y m Hx Hr]; subst.
  destruct (f x); simpl; [|exact (IH Hr)].
  constructor; [|exact (IH Hr)].
  intros Hin. apply Hx. apply in_map_iff in Hin as [y [Ey Hy]].
  apply filter_In in Hy as [Hy _]. rewrite <- Ey. apply in_map, Hy.
Qed.

Lemma sort_entries_sorted l :
  StronglySorted (fun a b => str_le (fst a) (fst b) = true) (sort_entries l).
Proof.
  apply sort_sorted.
  - intros a b. apply str_le_total.
  - intros a b c. apply str_le_trans.
Qed.

(** Sorting by name does not depend on the order of a list whose names are
    distinct. *)
Lemma sort_entries_perm l1 l2 :
  Permutation l1 l2 -> NoDup (map fst l1) -> sort_entries l1 = sort_entries l2.
Proof.
  intros P Hn.
  apply (sorted_perm_unique (fun a b => str_le (fst a) (fst b) = true)).
  - apply sort_entries_sorted.
  - apply sort_entries_sorted.
  - unfold sort_entries. rewrite !sort_perm. exact P.
  - intros x y Hx Hy H1 H2.
    apply (Permutation_in _ (sort_perm _ l1)) in Hx, Hy.
    apply (NoDup_fst_eq l1); [exact Hn | exact Hx | exact Hy |].
    apply str_le_antisym; assumption.
Qed.

Lemma flat_map_flat_map {A B C} (f : B -> list C) (g : A -> list B) l :
  flat_map f (flat_map g l) = flat_map (fun x => flat_map f (g x)) l.
Proof.
  induction l as [|x r IH]; simpl; [reflexivity|].
  rewrite flat_map_app, IH. reflexivity.
Qed.

Lemma spec_records_dir rel es :
  spec_records rel (Dir es) =
  flat_map (fun f => match snd f with
                     | File (Some st) => [spec_record rel (fst f) st]
                     | _ => []
                     end)
           (sort_entries (filter (fun e => negb (is_dir_entry e)) es)) ++
  flat_map (fun e => spec_records (rel ++ [fst e]) (snd e))
           (sort_entries (filter is_dir_entry es)).
Proof.
  cbn [spec_records]. f_equal.
  set (annot := fun e : string * node =>
                  (fst e, snd e, spec_records (rel ++ [fst e]) (snd e))).
  assert (K : (fix go (l : list (string * node)) : list (string * node * list string) :=
                 match l with
                 | [] => []
                 | (name, c) :: r => (name, c, spec_records (rel ++ [name]) c) :: go r
                 end) es = map annot es).
  { induction es as [|[n c] r IH]; simpl; [reflexivity|]. f_equal. exact IH. }
  rewrite K.
  rewrite filter_map_swap.
  rewrite (sort_map (fun a b => str_le (fst a) (fst b))
             (fun a b => str_le (fst (fst a)) (fst (fst b))) annot);
    [|reflexivity].
  unfold sort_entries.
  change (fun a => is_dir_entry (fst (annot a))) with is_dir_entry.
  generalize (sort (fun a b => str_le (fst a) (fst b)) (filter is_dir_entry es)).
  intros l. induction l as [|x r IH]; simpl; [reflexivity|]. rewrite IH. reflexivity.
Qed.

Lemma wf_dir es :
  wf (Dir es) = true ->
  NoDup (map fst es) /\ forall e, In e es -> wf (snd e) = true.
Proof.
  simpl. intros H. apply andb_prop in H as [H1 H2].
  split; [apply nodup_names_NoDup, H1|]. clear H1.
  induction es as [|[n c] r IH]; simpl in *; [intros _ []|].
  apply andb_prop in H2 as [H2 H3].
  intros e [<-|He]; [exact H2 | exact (IH H3 e He)].
Qed.

Lemma depth_dir es f :
  depth (Dir es) <= S f -> forall e, In e es -> depth (snd e) <= f.
Proof.
  simpl. intros H.
  induction es as [|[n c] r IH]; simpl in *; [intros _ []|].
  intros e [<-|He]; simpl; [lia|]. apply IH; [lia | exact He].
Qed.

Lemma flat_map_ext_in' {A B} (f g : A -> list B) l :
  (forall x, In x l -> f x = g x) -> flat_map f l = flat_map g l.
Proof.
  induction l as [|x r IH]; simpl; intros H; [reflexivity|].
  rewrite (H x (or_introl eq_refl)), IH; [reflexivity|]. intros y Hy. apply H. right. exact Hy.
Qed.

Section Walk.
Variable ord : list string -> list (string * node) -> list (string * node).
Hypothesis ord_perm : forall rel l, Permutation (ord rel l) l.

Lemma walk_records fuel : forall es rel,
  depth (Dir es) <= fuel -> wf (Dir es) = true ->
  flat_map (fun t => let '(rel, _, files) := t in file_entries rel files)
           (os_walk ord fuel sort_entries rel es) =
  spec_records rel (Dir es).
Proof.
  induction fuel as [|f IH]; intros es rel Hd Hw; [simpl in Hd; lia|].
  destruct (wf_dir es Hw) as [Hn Hsub].
  rewrite spec_records_dir. cbn [os_walk flat_map]. rewrite flat_map_flat_map.
  f_equal.
  - unfold file_entries.
    rewrite (sort_entries_perm (filter _ (ord rel es)) (filter (fun e => negb (is_dir_entry e)) es)).
    + apply flat_map_ext. intros [n [[st|]| |]]; reflexivity.
    + apply Permutation_filter', ord_perm.
    + apply NoDup_fst_filter.
      apply (Permutation_NoDup (Permutation_map fst (Permutation_sym (ord_perm rel es)))), Hn.
  - rewrite (sort_entries_perm (filter is_dir_entry (ord rel es)) (filter is_dir_entry es)).
    + apply flat_map_ext_in'. intros [n c] Hin. simpl.
      apply (Permutation_in _ (sort_perm _ _)), filter_In in Hin as [Hin _].
      destruct c as [st|es'|]; simpl; try reflexivity.
      rewrite ?app_nil_r. apply IH.
      * exact (depth_dir es f Hd _ Hin).
      * exact (Hsub _ Hin).
    + apply Permutation_filter', ord_perm.
    + apply NoDup_fst_filter.
      apply (Permutation_NoDup (Permutation_map fst (Permutation_sym (ord_perm rel es)))), Hn.
Qed.

(** The fingerprint the script computes is the one of the specification,
    whatever the order in which the system lists directories. *)
Lemma fingerprint_spec sha256 es :
  wf (Dir es) = true ->
  compute_library_fingerprint ord sha256 es = spec_fingerprint sha256 es.
Proof.
  intros Hw. unfold compute_library_fingerprint, spec_fingerprint, walk.
  rewrite (walk_records (depth (Dir es)) es [] (le_n _) Hw).
  reflexivity.
Qed.

End Walk.

Lemma sort_entries_insert_nil (f : string * node -> list string) x s :
  f x = [] -> flat_map f (insert (fun a b => str_le (fst a) (fst b)) x s) = flat_map f s.
Proof.
  intros Hx. induction s as [|y r IH]; simpl.
  - rewrite Hx. reflexivity.
  - destruct (str_le (fst x) (fst y)); simpl; rewrite ?Hx, ?IH; reflexivity.
Qed.

(** C4: two computations of the fingerprint of the same tree give the same
    digest, whatever order the operating system lists directory entries in,
    each time: the digest depends on the tree alone. *)
Theorem fingerprint_order_independent ord1 ord2 sha256 es :
  (forall rel l, Permutation (ord1 rel l) l) ->
  (forall rel l, Permutation (ord2 rel l) l) ->
  wf (Dir es) = true ->
  compute_library_fingerprint ord1 sha256 es =
  compute_library_fingerprint ord2 sha256 es.
Proof.
  intros H1 H2 Hw.
  rewrite (fingerprint_spec ord1 H1 sha256 es Hw), (fingerprint_spec ord2 H2 sha256 es Hw).
  reflexivity.
Qed.

Lemma fingerprint_order_independent_witness :
  (forall rel l, Permutation (listing_as_is rel l) l) /\
  (forall rel l, Permutation (listing_reversed rel l) l) /\
  wf (Dir sample_tree) = true /\
  compute_library_fingerprint listing_as_is (fun b => b) sample_tree =
  compute_library_fingerprint listing_reversed (fun b => b) sample_tree.
Proof.
  assert (H1 : forall rel l, Permutation (listing_as_is rel l) l)
    by (intros rel l; reflexivity).
  assert (H2 : forall rel l, Permutation (listing_reversed rel l) l)
    by (intros rel l; apply Permutation_sym, Permutation_rev).
  assert (Hw : wf (Dir sample_tree) = true) by reflexivity.
  split; [exact H1|]. split; [exact H2|]. split; [exact Hw|].
  exact (fingerprint_order_independent listing_as_is listing_reversed (fun b => b)
           sample_tree H1 H2 Hw).
Defined.

(** C7: the fingerprint is the hex digest of SHA-256 fed with the UTF-8
    bytes of one record [relpath|size|int(mtime)\n] per regular file, met in
    a traversal sorted by name (the files of a directory, then its
    subdirectories), the relative path joined with the separator and the
    mtime truncated to whole seconds; a file gone between the listing and
    [os.stat] gives no record and no error: adding one to a directory leaves
    the fingerprint unchanged. *)
Theorem fingerprint_records ord sha256 es :
  (forall rel l, Permutation (ord rel l) l) ->
  wf (Dir es) = true ->
  compute_library_fingerprint ord sha256 es = spec_fingerprint sha256 es /\
  forall n, wf (Dir (es ++ [(n, File None)])) = true ->
  compute_library_fingerprint ord sha256 (es ++ [(n, File None)]) =
  compute_library_fingerprint ord sha256 es.
Proof.
  intros Hord Hw. split; [exact (fingerprint_spec ord Hord sha256 es Hw)|].
  intros n Hw'.
  rewrite (fingerprint_spec ord Hord sha256 _ Hw'), (fingerprint_spec ord Hord sha256 es Hw).
  unfold spec_fingerprint. rewrite !spec_records_dir.
  destruct (wf_dir _ Hw') as [Hn' _].
  rewrite !filter_app. cbn [filter is_dir_entry snd negb]. rewrite app_nil_r.
  rewrite (sort_entries_perm (filter (fun e => negb (is_dir_entry e)) es ++ [(n, File None)])
             ((n, File None) :: filter (fun e => negb (is_dir_entry e)) es)).
  - unfold sort_entries at 1. cbn [sort].
    rewrite sort_entries_insert_nil by reflexivity. reflexivity.
  - apply Permutation_sym, Permutation_cons_append.
  - replace (filter (fun e => negb (is_dir_entry e)) es ++ [(n, File None)])
      with (filter (fun e => negb (is_dir_entry e)) (es ++ [(n, File None)]))
      by (rewrite filter_app; reflexivity).
    apply NoDup_fst_filter. exact Hn'.
Qed.

Lemma fingerprint_records_witness :
  (forall rel l, Permutation (listing_reversed rel l) l) /\
  wf (Dir sample_tree) = true /\
  (compute_library_fingerprint listing_reversed (fun b => b) sample_tree =
   spec_fingerprint (fun b => b) sample_tree /\
   forall n, wf (Dir (sample_tree ++ [(n, File None)])) = true ->
   compute_library_fingerprint listing_reversed (fun b => b) (sample_tree ++ [(n, File None)]) =
   compute_library_fingerprint listing_reversed (fun b => b) sample_tree).
Proof.
  assert (H2 : forall rel l, Permutation (listing_reversed rel l) l)
    by (intros rel l; apply Permutation_sym, Permutation_rev).
  assert (Hw : wf (Dir sample_tree) = true) by reflexivity.
  split; [exact H2|]. split; [exact Hw|].
  exact (fingerprint_records listing_reversed (fun b => b) sample_tree H2 Hw).
Defined.

End ProducerProofs.

(** ** Runs of the producer *)
Module ProducerRunProofs.
Import Producer ProducerReasoning.

(** *** Strings *)

Lemma append_cancel_l p a b : p +++ a = p +++ b -> a = b.
Proof. induction p as [|c p IH]; simpl; [auto|]. intros H. injection H as H. apply IH, H. Qed.

Lemma append_assoc_s a b c : (a +++ b) +++ c = a +++ (b +++ c).
Proof. induction a as [|x a IH]; simpl; [reflexivity|]. rewrite IH. reflexivity. Qed.

Lemma prefix_app s t : String.prefix s (s +++ t) = true.
Proof.
  induction s as [|c s IH]; simpl; [destruct t; reflexivity|].
  destruct (ascii_dec c c) as [_|n]; [exact IH | contradiction n; reflexivity].
Qed.

Lemma list_ascii_app a b :
  list_ascii_of_string (a +++ b) = list_ascii_of_string a ++ list_ascii_of_string b.
Proof. induction a as [|c a IH]; simpl; [reflexivity|]. rewrite IH. reflexivity. Qed.

Lemma string_of_list_app l1 l2 :
  string_of_list_ascii (l1 ++ l2) = string_of_list_ascii l1 +++ string_of_list_ascii l2.
Proof. induction l1 as [|c l IH]; simpl; [reflexivity|]. rewrite IH. reflexivity. Qed.

Lemma lower_app a b : lower (a +++ b) = lower a +++ lower b.
Proof. unfold lower. rewrite list_ascii_app, map_app, string_of_list_app. reflexivity. Qed.

Lemma endswith_app a x : endswith (a +++ x) x = true.
Proof.
  unfold endswith. rewrite list_ascii_app, rev_app_distr, string_of_list_app.
  apply prefix_app.
Qed.

Lemma owned_app q r : owned q (q +++ "_library_" +++ r).
Proof. unfold owned, startswith. rewrite <- append_assoc_s. apply prefix_app. Qed.

Lemma is_backup_of_zip q m : is_backup_of q (q +++ "_library_" +++ m +++ ".zip") = true.
Proof.
  unfold is_backup_of. apply andb_true_intro. split.
  - replace (q +++ "_library_" +++ m +++ ".zip") with ((q +++ "_library_" +++ m) +++ ".zip")
      by (rewrite !append_assoc_s; reflexivity).
    rewrite lower_app. apply endswith_app.
  - apply owned_app.
Qed.

Lemma is_backup_owned q n : is_backup_of q n = true -> owned q n.
Proof. unfold is_backup_of, owned. intros H. apply andb_prop in H. apply H. Qed.

Lemma backup_name_is_backup q t : is_backup_of q (backup_name q t) = true.
Proof. apply is_backup_of_zip. Qed.

Lemma monthly_name_is_backup q t : is_backup_of q (monthly_name q t) = true.
Proof.
  unfold monthly_name.
  replace (strftime_month t +++ "_monthly.zip") with ((strftime_month t +++ "_monthly") +++ ".zip")
    by (rewrite append_assoc_s; reflexivity).
  apply is_backup_of_zip.
Qed.

Lemma state_file_not_backup q : is_backup_of q (state_file_for_prefix q) = false.
Proof.
  unfold is_backup_of, state_file_for_prefix, endswith.
  rewrite lower_app, list_ascii_app, rev_app_distr, string_of_list_app. reflexivity.
Qed.

Lemma state_file_owned q : owned q (state_file_for_prefix q).
Proof.
  unfold state_file_for_prefix.
  replace "_library_state.txt" with ("_library_" +++ "state.txt") by reflexivity.
  apply owned_app.
Qed.

Lemma join_bd_inj a b : join_bd a = join_bd b -> a = b.
Proof. unfold join_bd. intros H. apply append_cancel_l in H. apply append_cancel_l in H. exact H. Qed.

(** [strip] leaves a hex digest alone. *)
Lemma strip_no_space s :
  Forall (fun c => is_space c = false) (list_ascii_of_string s) -> strip s = s.
Proof.
  intros H. unfold strip.
  assert (K : forall l, Forall (fun c => is_space c = false) l -> lstrip_l l = l).
  { intros [|c l] Hl; [reflexivity|]. inversion Hl; subst. simpl.
    match goal with Hc : is_space c = false |- _ => rewrite Hc end. reflexivity. }
  rewrite (K _ H), K, rev_involutive, string_of_list_ascii_of_string; [reflexivity|].
  apply Forall_rev, H.
Qed.

Lemma hex_char_not_space n : n < 16 -> is_space (hex_char n) = false.
Proof.
  intros Hn. unfold hex_char, is_space.
  do 16 (destruct n as [|n]; [reflexivity|]). lia.
Qed.

Lemma strip_hexdigest b : strip (hexdigest b) = hexdigest b.
Proof.
  apply strip_no_space. unfold hexdigest. rewrite list_ascii_of_string_of_list_ascii.
  apply Forall_forall. intros c Hc. apply in_flat_map in Hc as [x [_ Hc]].
  assert (Hx : Byte.to_nat x < 256) by (destruct x; vm_compute; lia).
  destruct Hc as [<-|[<-|[]]]; apply hex_char_not_space.
  - apply Nat.Div0.div_lt_upper_bound. lia.
  - apply Nat.mod_upper_bound. lia.
Qed.

(** *** Steps *)

Lemma lookup_remove_dir d n m :
  lookup_dir (remove_dir d n) m = if String.eqb n m then None else lookup_dir d m.
Proof.
  unfold remove_dir. induction d as [|[k c] r IH]; simpl.
  - destruct (String.eqb n m); reflexivity.
  - destruct (String.eqb k n) eqn:Hkn; simpl.
    + apply String.eqb_eq in Hkn; subst k. rewrite IH.
      destruct (String.eqb n m); reflexivity.
    + rewrite IH. destruct (String.eqb k m) eqn:Hkm; [|reflexivity].
      apply String.eqb_eq in Hkm; subst k.
      destruct (String.eqb n m) eqn:Hnm; [|reflexivity].
      apply String.eqb_eq in Hnm; subst n. rewrite String.eqb_refl in Hkn. discriminate.
Qed.

Lemma lookup_none_not_in d n : lookup_dir d n = None -> ~ In n (listdir d).
Proof.
  induction d as [|[k c] r IH]; simpl; [auto|].
  destruct (String.eqb k n) eqn:E; [discriminate|].
  intros H [<-|Hin]; [rewrite String.eqb_refl in E; discriminate | exact (IH H Hin)].
Qed.

Lemma listdir_write_dir d n c :
  listdir (write_dir d n c) =
  match lookup_dir d n with Some _ => listdir d | None => listdir d ++ [n] end.
Proof.
  induction d as [|[m c'] r IH]; simpl; [reflexivity|].
  destruct (String.eqb m n) eqn:E; simpl.
  - apply String.eqb_eq in E. subst. reflexivity.
  - rewrite IH. destruct (lookup_dir r n); reflexivity.
Qed.

Lemma NoDup_write_dir d n c : NoDup (listdir d) -> NoDup (listdir (write_dir d n c)).
Proof.
  intros H. rewrite listdir_write_dir. destruct (lookup_dir d n) eqn:L; [exact H|].
  apply (Permutation_NoDup (Permutation_cons_append _ _)).
  constructor; [apply lookup_none_not_in, L | exact H].
Qed.

Lemma step_refl S P w : step_rel S P w w.
Proof.
  split; [reflexivity|]. split; [reflexivity|]. split; [auto|].
  exists []. split; [symmetry; apply app_nil_r | constructor].
Qed.

Lemma step_trans S P w1 w2 w3 :
  step_rel S P w1 w2 -> step_rel S P w2 w3 -> step_rel S P w1 w3.
Proof.
  intros [T1 [L1 [N1 [n1 [G1 F1]]]]] [T2 [L2 [N2 [n2 [G2 F2]]]]].
  split; [congruence|]. split; [intros n Hn; rewrite L2, L1; auto|].
  split; [auto|]. exists (n1 ++ n2). split.
  - rewrite G2, G1, app_assoc. reflexivity.
  - apply Forall_app. split; assumption.
Qed.

Lemma step_mono (S S' : string -> Prop) (P P' : event -> Prop) w w' :
  (forall n, S n -> S' n) -> (forall e, P e -> P' e) ->
  step_rel S P w w' -> step_rel S' P' w w'.
Proof.
  intros HS HP [T [L [N [nw [G F]]]]].
  split; [exact T|]. split; [intros n Hn; apply L; auto|]. split; [exact N|].
  exists nw. split; [exact G|]. eapply Forall_impl; [exact HP | exact F].
Qed.

Lemma step_emit S P w e :
  P e -> step_rel S P w (mkWorld (bdir w) (trees w) (tick w) (log w ++ [e])).
Proof.
  intros He. split; [reflexivity|]. split; [reflexivity|]. split; [auto|].
  exists [e]. split; [reflexivity | constructor; [exact He | constructor]].
Qed.

Lemma step_write S P w n c t :
  S n -> step_rel S P w (mkWorld (write_dir (bdir w) n c) (trees w) t (log w)).
Proof.
  intros Hn. split; [reflexivity|]. split.
  - intros m Hm. cbn [bdir]. rewrite lookup_write_dir.
    destruct (String.eqb n m) eqn:E; [|reflexivity].
    apply String.eqb_eq in E. subst. contradiction.
  - split; [apply NoDup_write_dir|].
    exists []. split; [symmetry; apply app_nil_r | constructor].
Qed.

Lemma step_remove S P w n t :
  S n -> step_rel S P w (mkWorld (remove_dir (bdir w) n) (trees w) t (log w)).
Proof.
  intros Hn. split; [reflexivity|]. split.
  - intros m Hm. cbn [bdir]. rewrite lookup_remove_dir.
    destruct (String.eqb n m) eqn:E; [|reflexivity].
    apply String.eqb_eq in E. subst. contradiction.
  - split.
    + intros H. unfold remove_dir, listdir in *. cbn [bdir].
      apply ProducerProofs.NoDup_fst_filter, H.
    + exists []. split; [symmetry; apply app_nil_r | constructor].
Qed.

Lemma step_tick S P w t : step_rel S P w (mkWorld (bdir w) (trees w) t (log w)).
Proof.
  split; [reflexivity|]. split; [reflexivity|]. split; [auto|].
  exists []. split; [symmetry; apply app_nil_r | constructor].
Qed.

Lemma step_bind {A B} S P (m : PM A) (k : A -> PM B) w :
  step_rel S P w (res_world (m w)) ->
  (forall a w', m w = Ok a w' -> step_rel S P w' (res_world (k a w'))) ->
  step_rel S P w (res_world (bind m k w)).
Proof.
  intros H1 H2. unfold bind. destruct (m w) as [a w'|e w'] eqn:E; [|exact H1].
  eapply step_trans; [exact H1 | exact (H2 a w' eq_refl)].
Qed.

(** *** The functions of the script *)

Section Fns.
Variable ord : list string -> list (string * node) -> list (string * node).
Variable sha256 : list Byte.byte -> list Byte.byte.
Variable clock : nat -> datetime.

Lemma has_library_changed_cases p es w :
  let F := compute_library_fingerprint ord sha256 es in
  let sp := state_file_for_prefix p in
  (exists s, lookup_dir (bdir w) sp = Some (Text s) /\ strip s = F /\
     has_library_changed ord sha256 p es w = Ok false w) \/
  (exists ms ok, lookup_dir (bdir w) sp = Some (Zip ms ok) /\
     has_library_changed ord sha256 p es w = Exc (UnicodeDecodeError sp) w) \/
  ((forall s, lookup_dir (bdir w) sp = Some (Text s) -> strip s <> F) /\
   has_library_changed ord sha256 p es w =
     Ok true (mkWorld (write_dir (bdir w) sp (Text F)) (trees w) (tick w)
                      (log w ++ [WriteState sp F]))).
Proof.
  cbv zeta. unfold has_library_changed, bind, get, set_bdir, emit, ret, raise.
  cbv zeta.
  destruct (lookup_dir (bdir w) (state_file_for_prefix p)) as [[s|ms ok]|] eqn:L.
  - destruct (String.eqb (strip s) (compute_library_fingerprint ord sha256 es)) eqn:E.
    + left. exists s. apply String.eqb_eq in E. auto.
    + right; right. split; [|reflexivity].
      intros s' H' Hs. injection H' as <-. apply String.eqb_neq in E. contradiction.
  - right; left. exists ms, ok. auto.
  - right; right. split; [intros s H; discriminate | reflexivity].
Qed.

Lemma create_backup_zip_cases p es w :
  let nm := backup_name p (clock (tick w)) in
  exists ms,
    let w' := mkWorld (write_dir (bdir w) nm (Zip ms true)) (trees w) (S (tick w))
                      (log w ++ [CreateZip nm]) in
    create_backup_zip ord clock p es w = Ok nm w' \/
    exists e, create_backup_zip ord clock p es w = Exc e w'.
Proof.
  cbv zeta. unfold create_backup_zip, bind, now, emit, get, set_bdir, ret, raise.
  cbn [bdir trees tick log].
  destruct (pack (zip_files ord es)) as [ms [e|]]; exists ms; cbn.
  - right. exists e. reflexivity.
  - left. reflexivity.
Qed.

Lemma ensure_monthly_snapshot_step p latest w :
  step_rel (fun n => is_backup_of p n = true) (archive_event p) w
           (res_world (ensure_monthly_snapshot clock p latest w)).
Proof.
  unfold ensure_monthly_snapshot, bind, now, get, set_bdir, emit, ret, raise.
  cbn [bdir trees tick log res_world].
  destruct (exists_in (bdir w) (monthly_name p (clock (tick w)))).
  { apply step_tick. }
  destruct (lookup_dir (bdir w) latest) as [c|]; cbn [res_world].
  2:{ apply step_tick. }
  eapply step_trans.
  - apply (step_write _ _ w (monthly_name p (clock (tick w))) c (S (tick w))).
    apply monthly_name_is_backup.
  - set (w1 := mkWorld _ _ _ _).
    apply (step_emit _ _ w1 (Copy latest (monthly_name p (clock (tick w))))).
    apply is_backup_owned, monthly_name_is_backup.
Qed.

(** When this month's snapshot exists, nothing but the clock is touched. *)
Lemma ensure_monthly_snapshot_exists p latest w :
  exists_in (bdir w) (monthly_name p (clock (tick w))) = true ->
  ensure_monthly_snapshot clock p latest w =
    Ok tt (mkWorld (bdir w) (trees w) (S (tick w)) (log w)).
Proof.
  intros H. unfold ensure_monthly_snapshot, bind, now, get, ret.
  cbn [bdir trees tick log]. rewrite H. reflexivity.
Qed.

End Fns.

Lemma remove_all_step p paths :
  (forall x, In x paths -> exists f, x = join_bd f /\ is_backup_of p f = true) ->
  forall w,
  step_rel (fun n => is_backup_of p n = true) (archive_event p) w
           (res_world (remove_all paths w)).
Proof.
  unfold remove_all. induction paths as [|x r IH]; intros Hp w; cbn [foldM].
  - apply step_refl.
  - apply step_bind.
    + unfold os_remove, bind, get, set_bdir, emit, raise.
      destruct (find (fun n => String.eqb (join_bd n) x) (listdir (bdir w))) as [n|] eqn:Fd;
        cbn [res_world].
      2:{ apply step_refl. }
      apply find_some in Fd as [_ Fd]. apply String.eqb_eq in Fd.
      destruct (Hp x (or_introl eq_refl)) as [f [-> Hf]].
      apply join_bd_inj in Fd. subst n.
      eapply step_trans; [apply (step_remove _ _ w f (tick w)); exact Hf|].
      apply (step_emit _ _ (mkWorld _ _ _ _) (Remove f)). apply is_backup_owned, Hf.
    + intros [] w' _. apply IH. intros y Hy. apply Hp. right. exact Hy.
Qed.

Lemma In_slice {A} (l : list A) k x : In x (slice_but_last l k) -> In x l.
Proof.
  unfold slice_but_last. destruct (Nat.eqb k 0); [intros []|].
  intros H. rewrite <- (firstn_skipn (length l - k) l). apply in_or_app. left. exact H.
Qed.

Lemma prune_step p w :
  step_rel (fun n => is_backup_of p n = true) (archive_event p) w
           (res_world (prune_backups_for_prefix p w)).
Proof.
  unfold prune_backups_for_prefix. cbv zeta. unfold bind at 1, get.
  set (fp := map join_bd (filter (is_backup_of p) (listdir (bdir w)))).
  assert (Hfp : forall g k x, In x (slice_but_last (sort_str (filter g fp)) k) ->
                exists f, x = join_bd f /\ is_backup_of p f = true).
  { intros g k x Hx. apply In_slice in Hx.
    apply (Permutation_in _ (sort_perm _ _)) in Hx.
    apply filter_In in Hx as [Hx _]. apply in_map_iff in Hx as [f [<- Hf]].
    apply filter_In in Hf as [_ Hf]. exists f. auto. }
  apply step_bind.
  - destruct (Nat.ltb _ _); [apply remove_all_step; intros x Hx; exact (Hfp _ _ x Hx)|].
    apply step_refl.
  - intros a w' _. destruct (Nat.ltb _ _); [apply remove_all_step; intros x Hx; exact (Hfp _ _ x Hx)|].
    apply step_refl.
Qed.

(** *** One iteration of the loop, and the loop *)

Lemma step_write_emit S P w n c t e :
  S n -> P e ->
  step_rel S P w (mkWorld (write_dir (bdir w) n c) (trees w) t (log w ++ [e])).
Proof.
  intros Hn He. eapply step_trans; [apply (step_write _ _ w n c t Hn)|].
  apply (step_emit _ _ (mkWorld _ _ _ _) e He).
Qed.

Lemma bind_get {A} (k : world -> PM A) w : bind get k w = k w w.
Proof. reflexivity. Qed.

Section Body.
Variable ord : list string -> list (string * node) -> list (string * node).
Variable sha256 : list Byte.byte -> list Byte.byte.
Variable clock : nat -> datetime.

Lemma body_eq p ld w :
  body ord sha256 clock (p, ld) w =
  (w1 <- get ;;
   match lookup_tree (trees w1) ld with
   | None => ret tt
   | Some es =>
       changed <- has_library_changed ord sha256 p es ;;
       if negb changed then ret tt else
       latest_backup <- create_backup_zip ord clock p es ;;
       ensure_monthly_snapshot clock p latest_backup ;;;
       prune_backups_for_prefix p
   end) (visited p w).
Proof. reflexivity. Qed.

Lemma archive_after_visit p n :
  is_backup_of p n = true -> owned p n.
Proof. apply is_backup_owned. Qed.

Lemma body_after_visit p ld w :
  step_rel (owned p) (after_visit p) (visited p w)
           (res_world (body ord sha256 clock (p, ld) w)).
Proof.
  rewrite body_eq, bind_get. cbn [trees visited].
  set (w0 := visited p w).
  destruct (lookup_tree (trees w) ld) as [es|]; [|apply step_refl].
  apply step_bind.
  - destruct (has_library_changed_cases ord sha256 p es w0)
      as [[s [_ [_ E]]]|[[ms [ok [_ E]]]|[_ E]]]; rewrite E; cbn [res_world].
    + apply step_refl.
    + apply step_refl.
    + apply step_write_emit; [apply state_file_owned | right; eexists; reflexivity].
  - intros changed w1 _. destruct changed; cbn [negb]; [|apply step_refl].
    apply step_bind.
    + destruct (create_backup_zip_cases ord clock p es w1) as [ms [E|[e E]]];
        rewrite E; cbn [res_world];
        (apply step_write_emit;
         [apply is_backup_owned, backup_name_is_backup
         | left; apply is_backup_owned, backup_name_is_backup]).
    + intros nm w2 _. apply step_bind.
      * eapply step_mono; [| |apply ensure_monthly_snapshot_step].
        -- apply is_backup_owned.
        -- intros e He. left. exact He.
      * intros [] w3 _. eapply step_mono; [| |apply prune_step].
        -- apply is_backup_owned.
        -- intros e He. left. exact He.
Qed.

Lemma after_visit_own p e : after_visit p e -> own_event p e.
Proof.
  intros [H|[v ->]]; [|apply state_file_owned].
  destruct e; simpl in *; tauto.
Qed.


Lemma body_step p ld w :
  step_rel (owned p) (own_event p) w (res_world (body ord sha256 clock (p, ld) w)).
Proof.
  eapply step_trans.
  - apply (step_emit (owned p) (own_event p) w (Visit p)). reflexivity.
  - eapply step_mono; [| |apply body_after_visit]; [auto | apply after_visit_own].
Qed.


Lemma main_with_step libs w :
  step_rel (lib_owned libs) (lib_event libs) w (res_world (main_with ord sha256 clock libs w)).
Proof.
  revert w. unfold main_with. induction libs as [|[q ld] r IH]; intros w; cbn [foldM].
  - apply step_refl.
  - apply step_bind.
    + eapply step_mono; [| |apply body_step].
      * intros n Hn. exists q, ld. split; [left; reflexivity | exact Hn].
      * intros e He. exists q, ld. split; [left; reflexivity | exact He].
    + intros [] w' _. eapply step_mono; [| |apply IH].
      * intros n [q' [ld' [Hi Ho]]]. exists q', ld'. split; [right; exact Hi | exact Ho].
      * intros e [q' [ld' [Hi Ho]]]. exists q', ld'. split; [right; exact Hi | exact Ho].
Qed.



End Body.

Lemma bind_ok {A B} (m : PM A) (k : A -> PM B) w a w' :
  m w = Ok a w' -> bind m k w = k a w'.
Proof. unfold bind. intros ->. reflexivity. Qed.

Lemma bind_exc {A B} (m : PM A) (k : A -> PM B) w e w' :
  m w = Exc e w' -> bind m k w = Exc e w'.
Proof. unfold bind. intros ->. reflexivity. Qed.

Lemma fingerprint_stripped ord sha256 es :
  strip (compute_library_fingerprint ord sha256 es) = compute_library_fingerprint ord sha256 es.
Proof. apply strip_hexdigest. Qed.

Lemma backup_name_not_state p t : String.eqb (backup_name p t) (state_file_for_prefix p) = false.
Proof.
  destruct (String.eqb _ _) eqn:E; [|reflexivity].
  apply String.eqb_eq in E. pose proof (backup_name_is_backup p t) as H.
  rewrite E, state_file_not_backup in H. discriminate.
Qed.

Section Body2.
Variable ord : list string -> list (string * node) -> list (string * node).
Variable sha256 : list Byte.byte -> list Byte.byte.
Variable clock : nat -> datetime.

Lemma after_create_step p nm w :
  step_rel (fun n => is_backup_of p n = true) (archive_event p) w
    (res_world ((ensure_monthly_snapshot clock p nm ;;; prune_backups_for_prefix p) w)).
Proof.
  apply step_bind; [apply ensure_monthly_snapshot_step|].
  intros [] w' _. apply prune_step.
Qed.

(** A library whose stored fingerprint is missing or differs from the fresh
    one: the state is written, then the archive is created. *)
Lemma body_changed p ld w es :
  lookup_tree (trees w) ld = Some es ->
  match lookup_dir (bdir w) (state_file_for_prefix p) with
  | None => True
  | Some (Text s) => strip s <> compute_library_fingerprint ord sha256 es
  | Some (Zip _ _) => False
  end ->
  let F := compute_library_fingerprint ord sha256 es in
  let r := body ord sha256 clock (p, ld) w in
  exists rest,
    log (res_world r) =
      log w ++ Visit p :: WriteState (state_file_for_prefix p) F ::
               CreateZip (backup_name p (clock (tick w))) :: rest /\
    Forall (archive_event p) rest /\
    lookup_dir (bdir (res_world r)) (state_file_for_prefix p) = Some (Text F).
Proof.
  intros L Hs. cbv zeta. rewrite body_eq, bind_get. cbn [trees visited]. rewrite L.
  destruct (has_library_changed_cases ord sha256 p es (visited p w))
    as [[s [Ls [Hst _]]]|[[ms [ok [Ls _]]]|[_ E]]];
    cbn [bdir visited] in *.
  { rewrite Ls in Hs. contradiction. }
  { rewrite Ls in Hs. contradiction. }
  rewrite (bind_ok _ _ _ _ _ E). cbn [negb].
  set (w1 := mkWorld _ _ _ _).
  destruct (create_backup_zip_cases ord clock p es w1) as [ms [E2|[e E2]]];
    set (w2 := mkWorld _ _ _ _) in E2.
  - rewrite (bind_ok _ _ _ _ _ E2).
    destruct (after_create_step p (backup_name p (clock (tick w1))) w2)
      as [_ [Lk [_ [rest [G Fa]]]]].
    exists rest. split; [|split; [exact Fa|]].
    + rewrite G. cbn. rewrite <- !app_assoc. reflexivity.
    + rewrite Lk by (rewrite state_file_not_backup; discriminate).
      cbn. rewrite lookup_write_dir, backup_name_not_state, lookup_write_dir, String.eqb_refl.
      reflexivity.
  - rewrite (bind_exc _ _ _ _ _ E2). exists []. cbn [res_world].
    split; [|split; [constructor|]].
    + cbn. rewrite <- !app_assoc. reflexivity.
    + cbn. rewrite lookup_write_dir, backup_name_not_state, lookup_write_dir, String.eqb_refl.
      reflexivity.
Qed.

(** A library whose stored fingerprint equals the fresh one, or whose
    directory is missing: the iteration only announces it. *)
Lemma body_idle p ld w :
  (forall es, lookup_tree (trees w) ld = Some es ->
     exists s, lookup_dir (bdir w) (state_file_for_prefix p) = Some (Text s) /\
               strip s = compute_library_fingerprint ord sha256 es) ->
  body ord sha256 clock (p, ld) w = Ok tt (visited p w).
Proof.
  intros H. rewrite body_eq, bind_get. cbn [trees visited].
  destruct (lookup_tree (trees w) ld) as [es|] eqn:L; [|reflexivity].
  destruct (H es eq_refl) as [s [Ls Hst]].
  destruct (has_library_changed_cases ord sha256 p es (visited p w))
    as [[s' [_ [_ E]]]|[[ms [ok [Ls' _]]]|[Hn _]]]; cbn [bdir visited] in *.
  - rewrite (bind_ok _ _ _ _ _ E). reflexivity.
  - rewrite Ls in Ls'. discriminate.
  - destruct (Hn s Ls Hst).
Qed.


End Body2.



Lemma main_step ord sha256 clock w :
  step_rel (lib_owned LIBRARIES) (lib_event LIBRARIES) w
           (res_world (main ord sha256 clock w)).
Proof. apply main_with_step. Qed.



(** C3: when the fresh fingerprint [F] of a library differs from the stored
    one, or none is stored, the iteration writes [F] to the state file before
    it creates the archive (its log reads: visit, state write of [F],
    archive creation, then only archive events of the library), and the
    state file holds [F] at the end, also when the archive creation raised;
    an iteration started from any world where the state file holds [F] and
    the tree is unchanged creates no archive and changes no file. *)
Theorem state_written_before_archive ord sha256 clock p ld w es :
  lookup_tree (trees w) ld = Some es ->
  match lookup_dir (bdir w) (state_file_for_prefix p) with
  | None => True
  | Some (Text s) => strip s <> compute_library_fingerprint ord sha256 es
  | Some (Zip _ _) => False
  end ->
  let F := compute_library_fingerprint ord sha256 es in
  let r := body ord sha256 clock (p, ld) w in
  (exists rest,
     log (res_world r) =
       log w ++ Visit p :: WriteState (state_file_for_prefix p) F ::
                CreateZip (backup_name p (clock (tick w))) :: rest /\
     Forall (archive_event p) rest /\
     lookup_dir (bdir (res_world r)) (state_file_for_prefix p) = Some (Text F)) /\
  (forall w2, lookup_tree (trees w2) ld = Some es ->
     lookup_dir (bdir w2) (state_file_for_prefix p) = Some (Text F) ->
     body ord sha256 clock (p, ld) w2 = Ok tt (visited p w2)).
Proof.
  intros L Hs. cbv zeta. split.
  - apply (body_changed ord sha256 clock p ld w es L Hs).
  - intros w2 L2 Ls. apply body_idle.
    intros es' L'. rewrite L2 in L'. injection L' as <-.
    eexists. split; [exact Ls | apply fingerprint_stripped].
Qed.

Lemma state_written_before_archive_witness :
  lookup_tree (trees w_vanished) "C:\Users\user\Books Library" = Some books_vanishing /\
  (let F := compute_library_fingerprint FingerprintSpec.listing_as_is sha_id books_vanishing in
   let r := body FingerprintSpec.listing_as_is sha_id clock_2025
                 ("books", "C:\Users\user\Books Library") w_vanished in
   (exists rest,
      log (res_world r) =
        log w_vanished ++ Visit "books" :: WriteState (state_file_for_prefix "books") F ::
          CreateZip (backup_name "books" (clock_2025 (tick w_vanished))) :: rest /\
      Forall (archive_event "books") rest /\
      lookup_dir (bdir (res_world r)) (state_file_for_prefix "books") = Some (Text F)) /\
   (forall w2, lookup_tree (trees w2) "C:\Users\user\Books Library" = Some books_vanishing ->
      lookup_dir (bdir w2) (state_file_for_prefix "books") = Some (Text F) ->
      body FingerprintSpec.listing_as_is sha_id clock_2025
           ("books", "C:\Users\user\Books Library") w2 = Ok tt (visited "books" w2))).
Proof.
  split; [reflexivity|].
  exact (state_written_before_archive FingerprintSpec.listing_as_is sha_id clock_2025
           "books" "C:\Users\user\Books Library" w_vanished books_vanishing eq_refl I).
Defined.

(** C6: the monthly snapshot of a library for the current month is created
    only when no file of that name exists (otherwise the call touches
    nothing but the clock); two times of the same calendar month give the
    same monthly name; and a run keeps the names of the backup directory
    distinct, so at most one monthly snapshot per library and month exists. *)
Theorem monthly_snapshot_at_most_once ord sha256 clock :
  (forall p latest w,
     exists_in (bdir w) (monthly_name p (clock (tick w))) = true ->
     ensure_monthly_snapshot clock p latest w =
       Ok tt (mkWorld (bdir w) (trees w) (S (tick w)) (log w))) /\
  (forall p t1 t2, year t1 = year t2 -> month t1 = month t2 ->
     monthly_name p t1 = monthly_name p t2) /\
  (forall w, NoDup (listdir (bdir w)) ->
     NoDup (listdir (bdir (res_world (main ord sha256 clock w))))).
Proof.
  split; [|split].
  - intros p latest w. apply ensure_monthly_snapshot_exists.
  - intros p t1 t2 Hy Hm. unfold monthly_name, strftime_month. rewrite Hy, Hm. reflexivity.
  - intros w H. destruct (main_step ord sha256 clock w) as [_ [_ [N _]]]. exact (N H).
Qed.

Lemma monthly_snapshot_at_most_once_witness :
  exists_in (bdir w_monthly_exists) (monthly_name "books" (clock_2025 (tick w_monthly_exists))) = true /\
  ensure_monthly_snapshot clock_2025 "books" "books_library_2025-01-01_00-00-00.zip" w_monthly_exists =
    Ok tt (mkWorld (bdir w_monthly_exists) (trees w_monthly_exists) (S (tick w_monthly_exists))
                   (log w_monthly_exists)) /\
  NoDup (listdir (bdir w_monthly_exists)) /\
  NoDup (listdir (bdir (res_world (main FingerprintSpec.listing_as_is sha_id clock_2025 w_monthly_exists)))).
Proof.
  assert (H1 : exists_in (bdir w_monthly_exists)
                 (monthly_name "books" (clock_2025 (tick w_monthly_exists))) = true)
    by reflexivity.
  assert (H2 : NoDup (listdir (bdir w_monthly_exists))).
  { constructor; [intros [H|[]]; discriminate H | constructor; [intros []|constructor]]. }
  split; [exact H1|]. split.
  - exact (proj1 (monthly_snapshot_at_most_once FingerprintSpec.listing_as_is sha_id clock_2025)
             "books" "books_library_2025-01-01_00-00-00.zip" w_monthly_exists H1).
  - split; [exact H2|].
    exact (proj2 (proj2 (monthly_snapshot_at_most_once FingerprintSpec.listing_as_is sha_id clock_2025))
             w_monthly_exists H2).
Defined.




End ProducerRunProofs.

(** ** Pruning *)
Module PruneProofs.
Import Producer ProducerReasoning ProducerRunProofs.

(** *** Names order as the times they encode *)

Lemma compare_refl_s s : String.compare s s = Eq.
Proof.
  induction s as [|c s IH]; simpl; [reflexivity|].
  unfold Ascii.compare. rewrite N.compare_refl. exact IH.
Qed.

Lemma compare_app_eqlen a b x y :
  String.length a = String.length b ->
  String.compare (a +++ x) (b +++ y) = lex (String.compare a b) (String.compare x y).
Proof.
  revert b. induction a as [|c a IH]; intros [|c' b] H; simpl in H; try discriminate.
  - reflexivity.
  - simpl. destruct (Ascii.compare c c'); [apply IH; lia | reflexivity | reflexivity].
Qed.

Lemma lex_eq_r c : lex c Eq = c.
Proof. destruct c; reflexivity. Qed.

Lemma pad_length w n : String.length (pad w n) = w.
Proof. revert n. induction w as [|w IH]; intros n; simpl; [reflexivity|]. rewrite IH. reflexivity. Qed.

Lemma digit_compare a b : a < 10 -> b < 10 -> Ascii.compare (digit a) (digit b) = Nat.compare a b.
Proof.
  intros Ha Hb.
  do 10 (destruct a as [|a]; [do 10 (destruct b as [|b]; [reflexivity|]); lia|]). lia.
Qed.

Lemma nat_compare_divmod a b m :
  0 < m ->
  Nat.compare a b = lex (Nat.compare (a / m) (b / m)) (Nat.compare (a mod m) (b mod m)).
Proof.
  intros Hm.
  pose proof (Nat.div_mod_eq a m) as Ha. pose proof (Nat.div_mod_eq b m) as Hb.
  pose proof (Nat.mod_upper_bound a m ltac:(lia)) as Ra.
  pose proof (Nat.mod_upper_bound b m ltac:(lia)) as Rb.
  set (qa := a / m) in *. set (qb := b / m) in *.
  set (ra := a mod m) in *. set (rb := b mod m) in *.
  destruct (Nat.compare_spec qa qb) as [E|L|L]; cbn [lex].
  - subst qb. destruct (Nat.compare_spec ra rb);
      destruct (Nat.compare_spec a b); try reflexivity; nia.
  - destruct (Nat.compare_spec a b); try reflexivity; exfalso.
    + nia.
    + assert (m * qa + m <= m * qb) by nia. nia.
  - destruct (Nat.compare_spec a b); try reflexivity; exfalso.
    + nia.
    + assert (m * qb + m <= m * qa) by nia. nia.
Qed.

Lemma pad_compare w a b :
  a < 10 ^ w -> b < 10 ^ w -> String.compare (pad w a) (pad w b) = Nat.compare a b.
Proof.
  revert a b. induction w as [|w IH]; intros a b Ha Hb.
  - simpl in *. replace a with 0 by lia. replace b with 0 by lia. reflexivity.
  - pose proof (Nat.pow_nonzero 10 w ltac:(lia)) as Hp.
    assert (Da : a / 10 ^ w < 10) by (apply Nat.Div0.div_lt_upper_bound; simpl in Ha; lia).
    assert (Db : b / 10 ^ w < 10) by (apply Nat.Div0.div_lt_upper_bound; simpl in Hb; lia).
    cbn [pad String.compare]. rewrite digit_compare by assumption.
    rewrite (nat_compare_divmod a b (10 ^ w)) by lia.
    destruct (Nat.compare (a / 10 ^ w) (b / 10 ^ w)); cbn [lex]; try reflexivity.
    apply IH; apply Nat.mod_upper_bound; exact Hp.
Qed.

Lemma dt_valid_bounds t :
  dt_valid t = true ->
  year t < 10 ^ 4 /\ month t < 10 ^ 2 /\ day t < 10 ^ 2 /\
  hour t < 10 ^ 2 /\ minute t < 10 ^ 2 /\ second t < 10 ^ 2.
Proof.
  unfold dt_valid. intros H. repeat (apply andb_prop in H as [H ?]).
  repeat match goal with Hx : Nat.ltb _ _ = true |- _ => apply Nat.ltb_lt in Hx end.
  repeat split; assumption.
Qed.

Ltac split_compare :=
  repeat first
    [ rewrite compare_append_same
    | rewrite (compare_app_eqlen (pad _ _) (pad _ _)) by (rewrite !pad_length; reflexivity) ].

Lemma strftime_full_compare t1 t2 :
  dt_valid t1 = true -> dt_valid t2 = true ->
  String.compare (strftime_full t1) (strftime_full t2) = dt_compare t1 t2.
Proof.
  intros H1 H2.
  destruct (dt_valid_bounds t1 H1) as [Y1 [M1 [D1 [h1 [m1 s1]]]]].
  destruct (dt_valid_bounds t2 H2) as [Y2 [M2 [D2 [h2 [m2 s2]]]]].
  unfold strftime_full, dt_compare. split_compare.
  rewrite !pad_compare by assumption. reflexivity.
Qed.

Lemma strftime_month_compare t1 t2 :
  dt_valid t1 = true -> dt_valid t2 = true ->
  String.compare (strftime_month t1) (strftime_month t2) = month_compare t1 t2.
Proof.
  intros H1 H2.
  destruct (dt_valid_bounds t1 H1) as [Y1 [M1 _]].
  destruct (dt_valid_bounds t2 H2) as [Y2 [M2 _]].
  unfold strftime_month, month_compare. split_compare.
  rewrite !pad_compare by assumption. reflexivity.
Qed.

Lemma slength_app a b : String.length (a +++ b) = String.length a + String.length b.
Proof. induction a as [|c a IH]; simpl; [reflexivity|]. rewrite IH. reflexivity. Qed.

Lemma strftime_full_length t : String.length (strftime_full t) = 19.
Proof.
  unfold strftime_full.
  repeat (rewrite slength_app || rewrite pad_length). reflexivity.
Qed.

Lemma strftime_month_length t : String.length (strftime_month t) = 7.
Proof.
  unfold strftime_month.
  repeat (rewrite slength_app || rewrite pad_length). reflexivity.
Qed.

Lemma backup_name_compare p t1 t2 :
  dt_valid t1 = true -> dt_valid t2 = true ->
  String.compare (backup_name p t1) (backup_name p t2) = dt_compare t1 t2.
Proof.
  intros H1 H2. unfold backup_name. rewrite !compare_append_same.
  rewrite compare_app_eqlen by (rewrite !strftime_full_length; reflexivity).
  rewrite compare_refl_s, lex_eq_r. apply strftime_full_compare; assumption.
Qed.

Lemma monthly_name_compare p t1 t2 :
  dt_valid t1 = true -> dt_valid t2 = true ->
  String.compare (monthly_name p t1) (monthly_name p t2) = month_compare t1 t2.
Proof.
  intros H1 H2. unfold monthly_name. rewrite !compare_append_same.
  rewrite compare_app_eqlen by (rewrite !strftime_month_length; reflexivity).
  rewrite compare_refl_s, lex_eq_r. apply strftime_month_compare; assumption.
Qed.


(** *** Strictly sorted lists *)

Lemma ltb_compare a b : String.ltb a b = true <-> String.compare a b = Lt.
Proof. unfold String.ltb. destruct (String.compare a b); split; congruence. Qed.

Lemma ltb_irrefl a : String.ltb a a = false.
Proof. unfold String.ltb. rewrite compare_refl_s. reflexivity. Qed.

Lemma ltb_asym a b : String.ltb a b = true -> String.ltb b a = false.
Proof.
  rewrite ltb_compare. intros H. unfold String.ltb.
  rewrite String.compare_antisym, H. reflexivity.
Qed.

Lemma sorted_strict l :
  NoDup l -> StronglySorted (fun a b => str_le a b = true) l ->
  StronglySorted (fun a b => String.ltb a b = true) l.
Proof.
  induction l as [|a r IH]; intros N S; [constructor|].
  inversion N as [|? ? Na Nr]; subst. apply StronglySorted_inv in S as [S F].
  constructor; [exact (IH Nr S)|].
  rewrite Forall_forall in *. intros y Hy.
  destruct (proj1 (str_le_cases a y) (F y Hy)) as [<-|L]; [contradiction|].
  apply ltb_compare, L.
Qed.

Lemma filter_length_lt {A} (f : A -> bool) l x :
  In x l -> f x = false -> length (filter f l) < length l.
Proof.
  induction l as [|y r IH]; intros Hx Hf; [destruct Hx|].
  pose proof (filter_length_le f r) as Hle.
  simpl. destruct Hx as [<-|Hx].
  - rewrite Hf. simpl. lia.
  - specialize (IH Hx Hf). destruct (f y); simpl; lia.
Qed.

Lemma count_gt_self x l : In x l -> count_gt x l < length l.
Proof. intros H. apply (filter_length_lt _ _ x H), ltb_irrefl. Qed.

Lemma count_gt_cons_head a S :
  Forall (fun y => String.ltb a y = true) S -> count_gt a (a :: S) = length S.
Proof.
  intros F. unfold count_gt. simpl. rewrite ltb_irrefl.
  rewrite (filter_ext_in _ (fun _ => true)), filter_true; [reflexivity|].
  intros y Hy. rewrite Forall_forall in F. apply F, Hy.
Qed.

Lemma count_gt_cons_tail a S x :
  Forall (fun y => String.ltb a y = true) S -> In x S -> count_gt x (a :: S) = count_gt x S.
Proof.
  intros F Hx. unfold count_gt. simpl. rewrite Forall_forall in F.
  rewrite (ltb_asym _ _ (F x Hx)). reflexivity.
Qed.

Lemma count_gt_perm x l l' : Permutation l l' -> count_gt x l = count_gt x l'.
Proof. intros P. apply Permutation_length, Permutation_filter', P. Qed.

(** In a strictly ascending list, the elements [l[:-K]] are those after
    which at least [K] elements come. *)
Lemma In_firstn_count L K x :
  StronglySorted (fun a b => String.ltb a b = true) L ->
  In x (firstn (length L - K) L) <-> In x L /\ K <= count_gt x L.
Proof.
  induction L as [|a L IH]; intros Hs; [simpl; tauto|].
  apply StronglySorted_inv in Hs as [Hs F]. specialize (IH Hs).
  assert (Na : ~ In a L).
  { intros Ha. rewrite Forall_forall in F. pose proof (F a Ha) as Fa.
    rewrite ltb_irrefl in Fa. discriminate Fa. }
  cbn [length].
  destruct (Nat.le_gt_cases K (length L)) as [Le|Gt].
  - replace (S (length L) - K) with (S (length L - K)) by lia. cbn [firstn In].
    rewrite IH. split.
    + intros [<-|[Hx Hc]].
      * split; [left; reflexivity|]. rewrite count_gt_cons_head by exact F. exact Le.
      * split; [right; exact Hx|]. rewrite count_gt_cons_tail by assumption. exact Hc.
    + intros [[<-|Hx] Hc]; [left; reflexivity|]. right. split; [exact Hx|].
      rewrite count_gt_cons_tail in Hc by assumption. exact Hc.
  - replace (S (length L) - K) with 0 by lia. cbn [firstn In]. split; [tauto|].
    intros [[<-|Hx] Hc].
    + rewrite count_gt_cons_head in Hc by exact F. lia.
    + rewrite count_gt_cons_tail in Hc by assumption.
      pose proof (count_gt_self x L Hx). lia.
Qed.

(** ... and at most [K] elements have fewer than [K] elements after them. *)
Lemma length_survivors L K :
  StronglySorted (fun a b => String.ltb a b = true) L ->
  length (filter (fun x => Nat.ltb (count_gt x L) K) L) = Nat.min (length L) K.
Proof.
  induction L as [|a L IH]; intros Hs; [reflexivity|].
  apply StronglySorted_inv in Hs as [Hs F]. specialize (IH Hs).
  cbn [filter]. rewrite count_gt_cons_head by exact F.
  rewrite (filter_ext_in _ (fun x => Nat.ltb (count_gt x L) K)).
  2:{ intros x Hx. rewrite count_gt_cons_tail by assumption. reflexivity. }
  destruct (Nat.ltb_spec (length L) K); cbn [length]; rewrite IH; lia.
Qed.

(** *** The directory after removals *)

Lemma filter_filter' {A} (f g : A -> bool) l :
  filter f (filter g l) = filter (fun x => g x && f x) l.
Proof.
  induction l as [|x r IH]; simpl; [reflexivity|].
  destruct (g x); simpl; [destruct (f x); simpl; rewrite IH|]; reflexivity || exact IH.
Qed.

Lemma filter_map_comm {A B} (f : B -> bool) (g : A -> B) l :
  filter f (map g l) = map g (filter (fun x => f (g x)) l).
Proof.
  induction l as [|x r IH]; simpl; [reflexivity|]. destruct (f (g x)); simpl; rewrite IH; reflexivity.
Qed.

Lemma lookup_filter (q : string -> bool) d f :
  lookup_dir (filter (fun e => q (fst e)) d) f = if q f then lookup_dir d f else None.
Proof.
  induction d as [|[k c] r IH]; simpl; [destruct (q f); reflexivity|].
  destruct (q k) eqn:Qk; simpl; destruct (String.eqb k f) eqn:E; rewrite ?IH;
    try (apply String.eqb_eq in E; subst k; rewrite Qk; reflexivity);
    reflexivity.
Qed.

Lemma listdir_filter (q : string -> bool) d :
  listdir (filter (fun e => q (fst e)) d) = filter q (listdir d).
Proof. unfold listdir. rewrite filter_map_comm. reflexivity. Qed.

Lemma lookup_in d f : lookup_dir d f <> None <-> In f (listdir d).
Proof.
  induction d as [|[k c] r IH]; simpl; [tauto|].
  destruct (String.eqb k f) eqn:E.
  - apply String.eqb_eq in E. subst. split; [auto | discriminate].
  - rewrite IH. apply String.eqb_neq in E. split; [auto|]. intros [H|H]; [contradiction|exact H].
Qed.

Lemma existsb_eqb_In f X : existsb (String.eqb f) X = true <-> In f X.
Proof.
  rewrite existsb_exists. split.
  - intros [y [Hy E]]. apply String.eqb_eq in E. subst. exact Hy.
  - intros H. exists f. split; [exact H | apply String.eqb_refl].
Qed.

Lemma os_remove_ok f w :
  lookup_dir (bdir w) f <> None ->
  os_remove (join_bd f) w =
    Ok tt (mkWorld (remove_dir (bdir w) f) (trees w) (tick w) (log w ++ [Remove f])).
Proof.
  intros H. unfold os_remove, bind, get.
  destruct (find (fun n => String.eqb (join_bd n) (join_bd f)) (listdir (bdir w))) as [n|] eqn:Fd.
  - apply find_some in Fd as [_ E]. apply String.eqb_eq, join_bd_inj in E. subst n.
    reflexivity.
  - exfalso. apply lookup_in in H. apply (find_none _ _ Fd) in H.
    rewrite String.eqb_refl in H. discriminate.
Qed.

Lemma remove_all_effect X w :
  NoDup X -> (forall f, In f X -> lookup_dir (bdir w) f <> None) ->
  exists new,
    remove_all (map join_bd X) w =
      Ok tt (mkWorld (filter (fun e => negb (existsb (String.eqb (fst e)) X)) (bdir w))
                     (trees w) (tick w) (log w ++ new)).
Proof.
  revert w. unfold remove_all. induction X as [|f X IH]; intros w N H; cbn [map foldM].
  - exists []. rewrite app_nil_r. cbn [existsb negb]. rewrite filter_true. destruct w; reflexivity.
  - inversion N as [|? ? Nf NX]; subst.
    rewrite (bind_ok _ _ _ _ _ (os_remove_ok f w (H f (or_introl eq_refl)))).
    destruct (IH (mkWorld (remove_dir (bdir w) f) (trees w) (tick w) (log w ++ [Remove f])) NX)
      as [new E].
    + intros g Hg. cbn [bdir]. rewrite lookup_remove_dir.
      destruct (String.eqb f g) eqn:Efg.
      * apply String.eqb_eq in Efg. subst. contradiction.
      * apply H. right. exact Hg.
    + rewrite E. exists (Remove f :: new). cbn [bdir trees tick log].
      rewrite <- app_assoc. unfold remove_dir. rewrite filter_filter'. f_equal. f_equal.
      apply filter_ext. intros [k c]. cbn [fst existsb]. rewrite negb_orb. reflexivity.
Qed.


(** *** [prune_backups_for_prefix] *)

Lemma NoDup_firstn' {A} (l : list A) k : NoDup l -> NoDup (firstn k l).
Proof. intros H. rewrite <- (firstn_skipn k l) in H. exact (NoDup_app_remove_r _ _ H). Qed.

Lemma sort_str_strict P :
  NoDup P -> StronglySorted (fun a b => String.ltb a b = true) (sort_str P).
Proof.
  intros N. apply sorted_strict.
  - exact (Permutation_NoDup (Permutation_sym (sort_perm str_le P)) N).
  - exact (sort_sorted str_le str_le_total str_le_trans P).
Qed.

Lemma length_sort_str P : length (sort_str P) = length P.
Proof. apply Permutation_length, sort_perm. Qed.

Lemma firstn_sorted_part P K f :
  NoDup P ->
  In f (firstn (length P - K) (sort_str P)) <-> In f P /\ K <= count_gt f P.
Proof.
  intros N. rewrite <- length_sort_str at 1.
  rewrite (In_firstn_count _ K f (sort_str_strict P N)).
  rewrite (count_gt_perm f (sort_str P) P (sort_perm str_le P)).
  split; intros [H1 H2]; split; try exact H2.
  - exact (Permutation_in _ (sort_perm str_le P) H1).
  - exact (Permutation_in _ (Permutation_sym (sort_perm str_le P)) H1).
Qed.

Lemma survivors_part P K :
  NoDup P ->
  length (filter (fun f => negb (existsb (String.eqb f) (firstn (length P - K) (sort_str P)))) P)
  = Nat.min (length P) K.
Proof.
  intros N.
  rewrite (filter_ext_in _ (fun f => Nat.ltb (count_gt f (sort_str P)) K)).
  - rewrite (Permutation_length (Permutation_filter' _ _ _ (Permutation_sym (sort_perm str_le P)))).
    rewrite length_survivors by exact (sort_str_strict P N).
    rewrite length_sort_str. reflexivity.
  - intros f Hf. rewrite (count_gt_perm f (sort_str P) P (sort_perm str_le P)).
    destruct (existsb (String.eqb f) _) eqn:E; cbn [negb].
    + apply existsb_eqb_In, (firstn_sorted_part P K f N) in E as [_ E].
      symmetry. apply Nat.ltb_ge. exact E.
    + symmetry. apply Nat.ltb_lt. apply Nat.nlt_ge. intros Hc.
      assert (Hin : In f (firstn (length P - K) (sort_str P))).
      { apply (firstn_sorted_part P K f N). split; [exact Hf | lia]. }
      apply existsb_eqb_In in Hin. congruence.
Qed.

Lemma slice_map_join S K :
  K <> 0 ->
  slice_but_last (map join_bd S) K = map join_bd (firstn (length S - K) S).
Proof.
  intros HK. unfold slice_but_last. apply Nat.eqb_neq in HK. rewrite HK.
  rewrite length_map, firstn_map. reflexivity.
Qed.

Lemma remove_if_slice l K :
  K <> 0 ->
  (if Nat.ltb K (length l) then remove_all (slice_but_last l K) else ret tt) =
  remove_all (slice_but_last l K).
Proof.
  intros HK. destruct (Nat.ltb_spec K (length l)) as [_|Le]; [reflexivity|].
  unfold slice_but_last. apply Nat.eqb_neq in HK. rewrite HK.
  replace (length l - K) with 0 by lia. reflexivity.
Qed.

Lemma str_le_join a b : str_le (join_bd a) (join_bd b) = str_le a b.
Proof. unfold join_bd. rewrite !str_le_append_same. reflexivity. Qed.

Lemma paths_of_part p g d :
  sort_str (filter g (map join_bd (filter (is_backup_of p) (listdir d)))) =
  map join_bd (sort_str (part_of p g d)).
Proof.
  rewrite filter_map_comm, filter_filter'. unfold sort_str.
  rewrite (sort_map str_le str_le join_bd) by apply str_le_join. reflexivity.
Qed.

Lemma part_of_NoDup p g d : NoDup (listdir d) -> NoDup (part_of p g d).
Proof. intros N. apply NoDup_filter, N. Qed.

Lemma part_of_In p g d f :
  In f (part_of p g d) <-> In f (listdir d) /\ is_backup_of p f = true /\ g (join_bd f) = true.
Proof. unfold part_of. rewrite filter_In, andb_true_iff. reflexivity. Qed.

Lemma recent_not_monthly p d f : In f (recent_of p d) -> ~ In f (monthly_of p d).
Proof.
  unfold recent_of, monthly_of. rewrite !part_of_In.
  intros [_ [_ H1]] [_ [_ H2]]. rewrite H2 in H1. discriminate.
Qed.

Lemma prune_effect p w :
  NoDup (listdir (bdir w)) ->
  let R := recent_of p (bdir w) in
  let Mo := monthly_of p (bdir w) in
  let X1 := firstn (length R - MAX_RECENT_BACKUPS) (sort_str R) in
  let X2 := firstn (length Mo - MAX_MONTHLY_SNAPSHOTS) (sort_str Mo) in
  exists new,
    prune_backups_for_prefix p w =
      Ok tt (mkWorld (filter (fun e => negb (existsb (String.eqb (fst e)) X2))
                       (filter (fun e => negb (existsb (String.eqb (fst e)) X1)) (bdir w)))
                     (trees w) (tick w) (log w ++ new)).
Proof.
  intros N. cbv zeta. unfold prune_backups_for_prefix. rewrite bind_get. cbv beta zeta.
  rewrite !paths_of_part.
  change (part_of p (fun q => negb (is_monthly_path q)) (bdir w)) with (recent_of p (bdir w)).
  change (part_of p is_monthly_path (bdir w)) with (monthly_of p (bdir w)).
  rewrite !remove_if_slice by discriminate.
  rewrite !slice_map_join by discriminate. rewrite !length_sort_str.
  set (R := recent_of p (bdir w)). set (Mo := monthly_of p (bdir w)).
  set (X1 := firstn (length R - MAX_RECENT_BACKUPS) (sort_str R)).
  set (X2 := firstn (length Mo - MAX_MONTHLY_SNAPSHOTS) (sort_str Mo)).
  assert (NR : NoDup R) by apply part_of_NoDup, N.
  assert (NM : NoDup Mo) by apply part_of_NoDup, N.
  assert (X1R : forall f, In f X1 -> In f R).
  { intros f Hf. apply (firstn_sorted_part R _ f NR) in Hf. apply Hf. }
  assert (X2M : forall f, In f X2 -> In f Mo).
  { intros f Hf. apply (firstn_sorted_part Mo _ f NM) in Hf. apply Hf. }
  destruct (remove_all_effect X1 w) as [n1 E1].
  { apply NoDup_firstn'. exact (Permutation_NoDup (Permutation_sym (sort_perm str_le R)) NR). }
  { intros f Hf. apply lookup_in. apply X1R, part_of_In in Hf. apply Hf. }
  rewrite (bind_ok _ _ _ _ _ E1).
  destruct (remove_all_effect X2
              (mkWorld (filter (fun e => negb (existsb (String.eqb (fst e)) X1)) (bdir w))
                       (trees w) (tick w) (log w ++ n1))) as [n2 E2].
  { apply NoDup_firstn'. exact (Permutation_NoDup (Permutation_sym (sort_perm str_le Mo)) NM). }
  { intros f Hf. cbn [bdir].
    rewrite (lookup_filter (fun n => negb (existsb (String.eqb n) X1))).
    destruct (existsb (String.eqb f) X1) eqn:Ex.
    - apply existsb_eqb_In, X1R in Ex. exfalso. exact (recent_not_monthly p _ f Ex (X2M f Hf)).
    - cbn [negb]. apply lookup_in. apply X2M, part_of_In in Hf. apply Hf. }
  rewrite E2. exists (n1 ++ n2). cbn [bdir trees tick log]. rewrite app_assoc. reflexivity.
Qed.

(** C5: pruning the archives of library [p] (file names kept distinct by
    the producer) ends normally and keeps every file but the old archives:
    an archive of [p] is removed exactly when it is recent (not monthly) and
    at least [MAX_RECENT_BACKUPS] recent archives sort after it, or monthly
    and at least [MAX_MONTHLY_SNAPSHOTS] monthly archives sort after it; the
    files kept are unchanged; [min n K] archives of each partition remain, so
    a partition of at most [K] archives loses none; and the order of the
    names is the order of the times they encode (of the month, for monthly
    names). *)
Theorem prune_keeps_newest p w :
  NoDup (listdir (bdir w)) ->
  let d := bdir w in
  (exists w',
     prune_backups_for_prefix p w = Ok tt w' /\
     trees w' = trees w /\
     (forall f, In f (listdir (bdir w')) <-> In f (listdir d) /\ ~ pruned p d f) /\
     (forall f, In f (listdir (bdir w')) -> lookup_dir (bdir w') f = lookup_dir d f) /\
     length (recent_of p (bdir w')) = Nat.min (length (recent_of p d)) MAX_RECENT_BACKUPS /\
     length (monthly_of p (bdir w')) =
       Nat.min (length (monthly_of p d)) MAX_MONTHLY_SNAPSHOTS /\
     (length (recent_of p d) <= MAX_RECENT_BACKUPS ->
        forall f, In f (recent_of p d) -> In f (listdir (bdir w'))) /\
     (length (monthly_of p d) <= MAX_MONTHLY_SNAPSHOTS ->
        forall f, In f (monthly_of p d) -> In f (listdir (bdir w')))) /\
  (forall t1 t2, dt_valid t1 = true -> dt_valid t2 = true ->
     String.compare (backup_name p t1) (backup_name p t2) = dt_compare t1 t2 /\
     String.compare (monthly_name p t1) (monthly_name p t2) = month_compare t1 t2).
Proof.
  intros N. cbv zeta. split.
  2:{ intros t1 t2 H1 H2. split; [apply backup_name_compare | apply monthly_name_compare];
      assumption. }
  destruct (prune_effect p w N) as [new E]. cbv zeta in E.
  set (R := recent_of p (bdir w)) in *. set (Mo := monthly_of p (bdir w)) in *.
  set (X1 := firstn (length R - MAX_RECENT_BACKUPS) (sort_str R)) in *.
  set (X2 := firstn (length Mo - MAX_MONTHLY_SNAPSHOTS) (sort_str Mo)) in *.
  set (k1 := fun n => negb (existsb (String.eqb n) X1)).
  set (k2 := fun n => negb (existsb (String.eqb n) X2)).
  assert (NR : NoDup R) by apply part_of_NoDup, N.
  assert (NM : NoDup Mo) by apply part_of_NoDup, N.
  assert (K1 : forall f, k1 f = true <-> ~ (In f R /\ MAX_RECENT_BACKUPS <= count_gt f R)).
  { intros f. unfold k1. rewrite <- (firstn_sorted_part R _ f NR), <- existsb_eqb_In.
    destruct (existsb _ _); cbn; split; congruence. }
  assert (K2 : forall f, k2 f = true <-> ~ (In f Mo /\ MAX_MONTHLY_SNAPSHOTS <= count_gt f Mo)).
  { intros f. unfold k2. rewrite <- (firstn_sorted_part Mo _ f NM), <- existsb_eqb_In.
    destruct (existsb _ _); cbn; split; congruence. }
  assert (Ld : listdir (filter (fun e => k2 (fst e)) (filter (fun e => k1 (fst e)) (bdir w))) =
               filter k2 (filter k1 (listdir (bdir w)))).
  { rewrite !listdir_filter. reflexivity. }
  eexists. split; [exact E|]. cbn [bdir trees].
  change (fun e => negb (existsb (String.eqb (fst e)) X2)) with (fun e : string * content => k2 (fst e)).
  change (fun e => negb (existsb (String.eqb (fst e)) X1)) with (fun e : string * content => k1 (fst e)).
  rewrite Ld. split; [reflexivity|].
  assert (Keep : forall f, In f (filter k2 (filter k1 (listdir (bdir w)))) <->
                           In f (listdir (bdir w)) /\ ~ pruned p (bdir w) f).
  { intros f. rewrite !filter_In, K1, K2. unfold pruned. fold R Mo. tauto. }
  (* the recent archives of library [p] are never monthly ones, and conversely *)
  assert (RK2 : forall f, In f R -> k2 f = true).
  { intros f Hf. apply K2. intros [Hm _]. exact (recent_not_monthly p _ f Hf Hm). }
  assert (MK1 : forall f, In f Mo -> k1 f = true).
  { intros f Hf. apply K1. intros [Hr _]. exact (recent_not_monthly p _ f Hr Hf). }
  split; [exact Keep|]. split.
  { intros f Hf. rewrite !lookup_filter. apply filter_In in Hf as [Hf H2].
    apply filter_In in Hf as [_ H1]. rewrite H1, H2. reflexivity. }
  split.
  { unfold recent_of, part_of. rewrite Ld, !filter_filter'.
    rewrite (filter_ext _ (fun x => (is_backup_of p x && negb (is_monthly_path (join_bd x))) && k1 x)).
    - rewrite <- filter_filter'. fold (part_of p (fun q => negb (is_monthly_path q)) (bdir w)).
      fold (recent_of p (bdir w)). fold R. apply survivors_part, NR.
    - intros x. destruct (is_backup_of p x && negb (is_monthly_path (join_bd x))) eqn:Rx;
        [|destruct (k1 x), (k2 x); cbn; rewrite ?Rx; reflexivity].
      destruct (In_dec string_dec x (listdir (bdir w))) as [Hin|Hout].
      + assert (Hr : In x R) by (apply filter_In; split; assumption).
        rewrite (RK2 x Hr). destruct (k1 x); reflexivity.
      + destruct (k2 x) eqn:K2x; [destruct (k1 x); reflexivity|].
        exfalso. apply Hout. unfold k2 in K2x.
        destruct (existsb _ _) eqn:Ex; [|discriminate].
        apply existsb_eqb_In in Ex.
        apply (firstn_sorted_part Mo _ x NM) in Ex as [Ex _]. apply part_of_In in Ex. apply Ex. }
  split.
  { unfold monthly_of, part_of. rewrite Ld, !filter_filter'.
    rewrite (filter_ext _ (fun x => (is_backup_of p x && is_monthly_path (join_bd x)) && k2 x)).
    - rewrite <- filter_filter'. fold (part_of p is_monthly_path (bdir w)).
      fold (monthly_of p (bdir w)). fold Mo. apply survivors_part, NM.
    - intros x. destruct (is_backup_of p x && is_monthly_path (join_bd x)) eqn:Mx;
        [|destruct (k1 x), (k2 x); cbn; rewrite ?Mx; reflexivity].
      destruct (In_dec string_dec x (listdir (bdir w))) as [Hin|Hout].
      + assert (Hm : In x Mo) by (apply filter_In; split; assumption).
        rewrite (MK1 x Hm). destruct (k2 x); reflexivity.
      + destruct (k1 x) eqn:K1x; [destruct (k2 x); reflexivity|].
        exfalso. apply Hout. unfold k1 in K1x.
        destruct (existsb _ _) eqn:Ex; [|discriminate].
        apply existsb_eqb_In in Ex.
        apply (firstn_sorted_part R _ x NR) in Ex as [Ex _]. apply part_of_In in Ex. apply Ex. }
  split.
  { intros Hl f Hf. apply Keep. split; [apply part_of_In in Hf; apply Hf|].
    intros [[_ Hc]|[Hm _]].
    - pose proof (count_gt_self f R Hf). unfold R, Mo in *. lia.
    - exact (recent_not_monthly p _ f Hf Hm). }
  { intros Hl f Hf. apply Keep. split; [apply part_of_In in Hf; apply Hf|].
    intros [[Hr _]|[_ Hc]].
    - exact (recent_not_monthly p _ f Hr Hf).
    - pose proof (count_gt_self f Mo Hf). unfold R, Mo in *. lia. }
Qed.

Lemma prune_keeps_newest_witness :
  NoDup (listdir (bdir w_prune)) /\
  let d := bdir w_prune in
  (exists w',
     prune_backups_for_prefix "books" w_prune = Ok tt w' /\
     trees w' = trees w_prune /\
     (forall f, In f (listdir (bdir w')) <-> In f (listdir d) /\ ~ pruned "books" d f) /\
     (forall f, In f (listdir (bdir w')) -> lookup_dir (bdir w') f = lookup_dir d f) /\
     length (recent_of "books" (bdir w')) =
       Nat.min (length (recent_of "books" d)) MAX_RECENT_BACKUPS /\
     length (monthly_of "books" (bdir w')) =
       Nat.min (length (monthly_of "books" d)) MAX_MONTHLY_SNAPSHOTS /\
     (length (recent_of "books" d) <= MAX_RECENT_BACKUPS ->
        forall f, In f (recent_of "books" d) -> In f (listdir (bdir w'))) /\
     (length (monthly_of "books" d) <= MAX_MONTHLY_SNAPSHOTS ->
        forall f, In f (monthly_of "books" d) -> In f (listdir (bdir w')))) /\
  (forall t1 t2, dt_valid t1 = true -> dt_valid t2 = true ->
     String.compare (backup_name "books" t1) (backup_name "books" t2) = dt_compare t1 t2 /\
     String.compare (monthly_name "books" t1) (monthly_name "books" t2) =
       month_compare t1 t2).
Proof.
  assert (N : NoDup (listdir (bdir w_prune))).
  { vm_compute. repeat constructor; simpl; intuition discriminate. }
  split; [exact N|].
  exact (prune_keeps_newest "books" w_prune N).
Defined.

End PruneProofs.

(** ** [clear_directory] *)
Module FSProofs.
Import FS.

Lemma assoc_map_upd {A} (es : list (string * A)) c (g : A -> A) k :
  assoc (map (fun e => if String.eqb (fst e) c then (fst e, g (snd e)) else e) es) k =
  if String.eqb c k then option_map g (assoc es k) else assoc es k.
Proof.
  induction es as [|[n x] r IH]; simpl; [destruct (String.eqb c k); reflexivity|].
  destruct (String.eqb n c) eqn:E1; simpl.
  - apply String.eqb_eq in E1; subst n. rewrite IH.
    destruct (String.eqb c k); reflexivity.
  - rewrite IH. destruct (String.eqb c k) eqn:E2.
    + apply String.eqb_eq in E2; subst k. rewrite E1. reflexivity.
    + destruct (String.eqb n k); reflexivity.
Qed.

Lemma assoc_map_set {A} (es : list (string * A)) c (v : A) k :
  assoc (map (fun e => if String.eqb (fst e) c then (fst e, v) else e) es) k =
  if String.eqb c k then option_map (fun _ => v) (assoc es k) else assoc es k.
Proof. exact (assoc_map_upd es c (fun _ => v) k). Qed.

Lemma assoc_app_none {A} (es : list (string * A)) c (v : A) k :
  assoc es c = None ->
  assoc (es ++ [(c, v)]) k = if String.eqb c k then Some v else assoc es k.
Proof.
  induction es as [|[n x] r IH]; simpl; intros H; [destruct (String.eqb c k); reflexivity|].
  destruct (String.eqb n c) eqn:E1; [discriminate|].
  rewrite IH by exact H. destruct (String.eqb c k) eqn:E2; [|reflexivity].
  apply String.eqb_eq in E2; subst k. rewrite E1. reflexivity.
Qed.

Lemma assoc_In {A} (l : list (string * A)) k :
  In k (map fst l) -> exists v, assoc l k = Some v.
Proof.
  induction l as [|[n x] r IH]; simpl; [tauto|].
  intros [E|H].
  - subst n. rewrite String.eqb_refl. eauto.
  - destruct (String.eqb n k); eauto.
Qed.

Lemma lookup_app p q n :
  lookup (p ++ q) n = match lookup p n with Some m => lookup q m | None => None end.
Proof.
  revert n. induction p as [|c r IH]; intros n; simpl; [reflexivity|].
  destruct n as [|es|t]; try reflexivity.
  destruct (assoc es c); [apply IH | reflexivity].
Qed.

Lemma prefix_cons c r r' : is_prefix (c :: r) (c :: r') -> is_prefix r r'.
Proof. intros [x H]. injection H as H. exists x. exact H. Qed.

(** Two paths one of which extends the other. *)
Lemma prefix_comparable p q x y :
  p ++ x = q ++ y -> is_prefix p q \/ is_prefix q p.
Proof.
  revert q. induction p as [|c r IH]; intros q H.
  - left. exists q. reflexivity.
  - destruct q as [|c' r'].
    + right. exists (c :: r). reflexivity.
    + injection H as -> H. destruct (IH r' H) as [[z Z]|[z Z]].
      * left. exists z. simpl. congruence.
      * right. exists z. simpl. congruence.
Qed.

Lemma lookup_update_at p f n :
  lookup p (update_at p f n) = option_map f (lookup p n).
Proof.
  revert n. induction p as [|c r IH]; intros n; simpl; [reflexivity|].
  destruct n as [|es|t]; simpl; try reflexivity.
  rewrite assoc_map_upd, String.eqb_refl.
  destruct (assoc es c); simpl; [apply IH | reflexivity].
Qed.

(** [update_at p] does not change the nodes apart from [p]. *)
Lemma lookup_update_apart p q f n :
  ~ is_prefix p q -> ~ is_prefix q p -> lookup q (update_at p f n) = lookup q n.
Proof.
  revert q n. induction p as [|c r IH]; intros q n H1 H2.
  - exfalso. apply H1. exists q. reflexivity.
  - destruct q as [|c' r'].
    + exfalso. apply H2. exists (c :: r). reflexivity.
    + destruct n as [|es|t]; simpl; try reflexivity.
      rewrite assoc_map_upd. destruct (String.eqb c c') eqn:E; [|reflexivity].
      apply String.eqb_eq in E; subst c'.
      destruct (assoc es c); simpl; [|reflexivity].
      apply IH.
      * intros [x Hx]. apply H1. exists x. simpl. congruence.
      * intros [x Hx]. apply H2. exists x. simpl. congruence.
Qed.

(** The directories on the way to [p] stay directories. *)
Lemma lookup_update_anc p q f n :
  (forall es, exists es', f (FDir es) = FDir es') ->
  is_prefix q p -> (exists es, lookup q n = Some (FDir es)) ->
  exists es', lookup q (update_at p f n) = Some (FDir es').
Proof.
  intros Hf. revert p n. induction q as [|c r IH]; intros p n [x Hx] [es E].
  - simpl in *. injection E as ->. destruct p as [|c p]; simpl.
    + destruct (Hf es) as [es' E']. rewrite E'. eauto.
    + eauto.
  - subst p. destruct n as [|es0|t]; simpl in E; try discriminate. simpl.
    rewrite assoc_map_upd, String.eqb_refl.
    destruct (assoc es0 c) as [m|]; [|discriminate]. simpl.
    apply IH; [exists x; reflexivity | eauto].
Qed.

Lemma delete_entry_dir name es :
  exists es', (fun n => match n with
                        | FDir es => FDir (filter (fun e => negb (String.eqb (fst e) name)) es)
                        | _ => n
                        end) (FDir es) = FDir es'.
Proof. eexists. reflexivity. Qed.

(** [os.makedirs(p, exist_ok=True)] keeps an existing directory as it is
    and creates a missing one empty, and touches nothing apart from [p]. *)
Lemma mkdirs_spec p : forall n, dirs_on p n = true ->
  exists n',
    mkdirs p n = Some n' /\
    lookup p n' = Some (match lookup p n with Some (FDir es) => FDir es | _ => FDir [] end) /\
    (forall q, ~ is_prefix p q -> ~ is_prefix q p -> lookup q n' = lookup q n) /\
    (forall q, is_prefix q p -> exists es, lookup q n' = Some (FDir es)).
Proof.
  induction p as [|c r IH]; intros n Hd; destruct n as [|es|t]; try discriminate.
  - exists (FDir es). split; [reflexivity|]. split; [reflexivity|]. split.
    + intros q H1 _. exfalso. apply H1. exists q. reflexivity.
    + intros q [x Hx]. destruct q; [eexists; reflexivity | discriminate].
  - simpl in Hd. simpl mkdirs. destruct (assoc es c) as [m|] eqn:A.
    + destruct (IH m Hd) as (m' & E & L & F & An). rewrite E.
      eexists. split; [reflexivity|]. split; [|split].
      * simpl. rewrite assoc_map_set, String.eqb_refl, A. simpl. rewrite L. reflexivity.
      * intros q H1 H2. destruct q as [|c' r'].
        { exfalso. apply H2. exists (c :: r). reflexivity. }
        simpl. rewrite assoc_map_set. destruct (String.eqb c c') eqn:Ec; [|reflexivity].
        apply String.eqb_eq in Ec; subst c'. rewrite A. simpl. apply F.
        -- intros [x Hx]. apply H1. exists x. simpl. congruence.
        -- intros [x Hx]. apply H2. exists x. simpl. congruence.
      * intros q [x Hx]. destruct q as [|c' r']; [eexists; reflexivity|].
        injection Hx as -> Hx. simpl. rewrite assoc_map_set, String.eqb_refl, A. simpl.
        apply An. exists x. exact Hx.
    + assert (D0 : dirs_on r (FDir []) = true) by (destruct r; reflexivity).
      destruct (IH _ D0) as (m' & E & L & F & An). rewrite E.
      eexists. split; [reflexivity|]. split; [|split].
      * simpl. rewrite assoc_app_none, String.eqb_refl by exact A. rewrite L, A.
        destruct r; reflexivity.
      * intros q H1 H2. destruct q as [|c' r'].
        { exfalso. apply H2. exists (c :: r). reflexivity. }
        simpl. rewrite assoc_app_none by exact A.
        destruct (String.eqb c c') eqn:Ec; [|reflexivity].
        apply String.eqb_eq in Ec; subst c'. rewrite A. rewrite F.
        -- destruct r' as [|c'' r'']; [|reflexivity].
           exfalso. apply H2. exists r. reflexivity.
        -- intros [x Hx]. apply H1. exists x. simpl. congruence.
        -- intros [x Hx]. apply H2. exists x. simpl. congruence.
      * intros q [x Hx]. destruct q as [|c' r']; [eexists; reflexivity|].
        injection Hx as -> Hx. simpl. rewrite assoc_app_none, String.eqb_refl by exact A.
        apply An. exists x. exact Hx.
Qed.

(** One iteration of the loop unlinks the entry, whatever it is. *)
Lemma clear_entry_ok d x fs m :
  lookup (d ++ [x]) fs = Some m ->
  clear_entry d tt x fs = Ok tt (delete_entry d x fs).
Proof.
  intros H. unfold clear_entry, bind, get, isdir, islink. rewrite H.
  destruct m as [|es|t].
  - simpl. unfold os_remove. rewrite H. reflexivity.
  - simpl. unfold rmtree. rewrite H. reflexivity.
  - rewrite andb_false_r. unfold os_remove. rewrite H. reflexivity.
Qed.

Lemma filter_true' {A} (l : list A) : filter (fun _ => true) l = l.
Proof. induction l as [|x r IH]; simpl; congruence. Qed.

Lemma clear_fold d L : forall fs es,
  lookup d fs = Some (FDir es) -> NoDup (map fst es) ->
  incl L (map fst es) -> NoDup L ->
  exists fs',
    foldM (clear_entry d) L tt fs = Ok tt fs' /\
    lookup d fs' = Some (FDir (filter (fun e => negb (existsb (String.eqb (fst e)) L)) es)) /\
    (forall q, ~ is_prefix d q -> ~ is_prefix q d -> lookup q fs' = lookup q fs) /\
    (forall q, is_prefix q d -> (exists es, lookup q fs = Some (FDir es)) ->
       exists es', lookup q fs' = Some (FDir es')).
Proof.
  induction L as [|x L IH]; intros fs es Hl Hn Hi HL.
  - exists fs. split; [reflexivity|]. split; [|split; [reflexivity | auto]].
    rewrite Hl. simpl. rewrite filter_true'. reflexivity.
  - destruct (assoc_In es x (Hi x (or_introl eq_refl))) as [m Hm].
    assert (Lx : lookup (d ++ [x]) fs = Some m) by (rewrite lookup_app, Hl; simpl; rewrite Hm; reflexivity).
    inversion HL as [|? ? Hx HL']; subst.
    set (es1 := filter (fun e => negb (String.eqb (fst e) x)) es).
    assert (L1 : lookup d (delete_entry d x fs) = Some (FDir es1))
      by (unfold delete_entry; rewrite lookup_update_at, Hl; reflexivity).
    assert (N1 : NoDup (map fst es1)) by (apply ProducerProofs.NoDup_fst_filter, Hn).
    assert (I1 : incl L (map fst es1)).
    { intros y Hy. destruct (in_map_iff fst es y) as [[e [Ey Ie]] _]; [apply Hi; right; exact Hy|].
      apply in_map_iff. exists e. split; [exact Ey|]. apply filter_In. split; [exact Ie|].
      subst y. destruct (String.eqb (fst e) x) eqn:E; [|reflexivity].
      apply String.eqb_eq in E. rewrite E in Hy. contradiction. }
    destruct (IH _ _ L1 N1 I1 HL') as (fs' & E & Ld & F & An).
    exists fs'. simpl foldM. unfold bind at 1. rewrite (clear_entry_ok d x fs m Lx).
    split; [exact E|]. split; [|split].
    + rewrite Ld. unfold es1. rewrite PruneProofs.filter_filter'. do 2 f_equal.
      apply filter_ext. intros e. simpl. destruct (String.eqb (fst e) x); reflexivity.
    + intros q H1 H2. rewrite F by assumption. unfold delete_entry.
      apply lookup_update_apart; assumption.
    + intros q Hq Hd. apply An; [exact Hq|]. unfold delete_entry.
      apply lookup_update_anc; [intros; apply delete_entry_dir | exact Hq | exact Hd].
Qed.

(** C10: clearing a restore destination [dest] (whose ancestors are
    directories and which, when present, lists each name once) succeeds;
    afterwards [dest] is an empty directory, every path apart from [dest]
    (neither under it nor one of its ancestors) keeps its node, the
    ancestors of [dest] are still directories, and in particular when an
    entry of [dest] is a symbolic link whose target lies outside [dest],
    the target and everything below it are unchanged: only the link is
    unlinked. *)
Theorem clear_directory_local dest fs :
  dirs_on dest fs = true ->
  (forall es, lookup dest fs = Some (FDir es) -> NoDup (map fst es)) ->
  exists fs',
    clear_directory dest fs = Ok tt fs' /\
    lookup dest fs' = Some (FDir []) /\
    (forall q, ~ is_prefix dest q -> ~ is_prefix q dest -> lookup q fs' = lookup q fs) /\
    (forall q, is_prefix q dest -> exists es, lookup q fs' = Some (FDir es)) /\
    (forall x t, lookup (dest ++ [x]) fs = Some (FLink t) ->
       ~ is_prefix dest t -> ~ is_prefix t dest ->
       forall r, lookup (t ++ r) fs' = lookup (t ++ r) fs).
Proof.
  intros Hd Hn.
  destruct (mkdirs_spec dest fs Hd) as (fs1 & E1 & L1 & F1 & A1).
  set (es0 := match lookup dest fs with Some (FDir es) => es | _ => [] end).
  assert (L1' : lookup dest fs1 = Some (FDir es0)).
  { rewrite L1. unfold es0. destruct (lookup dest fs) as [[| |]|]; reflexivity. }
  assert (N0 : NoDup (map fst es0)).
  { unfold es0. destruct (lookup dest fs) as [[|es|]|] eqn:E; try constructor. apply Hn. reflexivity. }
  destruct (clear_fold dest (map fst es0) fs1 es0 L1' N0 (incl_refl _) N0)
    as (fs' & E & Ld & F & An).
  assert (Fr : forall q, ~ is_prefix dest q -> ~ is_prefix q dest -> lookup q fs' = lookup q fs).
  { intros q H1 H2. rewrite F by assumption. apply F1; assumption. }
  exists fs'. split; [|split; [|split; [|split]]].
  - unfold clear_directory, makedirs, bind. rewrite E1. unfold listdir. rewrite L1'. exact E.
  - rewrite Ld. do 2 f_equal.
    assert (G : forall l, incl l es0 ->
              filter (fun e => negb (existsb (String.eqb (fst e)) (map fst es0))) l = []).
    { induction l as [|e r IH]; intros Hi; [reflexivity|]. simpl.
      assert (Ie : existsb (String.eqb (fst e)) (map fst es0) = true).
      { apply PruneProofs.existsb_eqb_In, in_map, Hi. left. reflexivity. }
      rewrite Ie. simpl. apply IH. intros y Hy. apply Hi. right. exact Hy. }
    apply G, incl_refl.
  - exact Fr.
  - intros q Hq. apply An; [exact Hq|]. apply A1, Hq.
  - intros x t _ H1 H2 r. apply Fr.
    + intros [y Hy]. destruct (prefix_comparable dest t y r (eq_sym Hy)) as [P|P]; tauto.
    + intros [y Hy]. apply H2. exists (r ++ y). rewrite Hy, app_assoc. reflexivity.
Qed.

Lemma clear_directory_local_witness :
  dirs_on lib_dest sample_fs = true /\
  (forall es, lookup lib_dest sample_fs = Some (FDir es) -> NoDup (map fst es)) /\
  exists fs',
    clear_directory lib_dest sample_fs = Ok tt fs' /\
    lookup lib_dest fs' = Some (FDir []) /\
    (forall q, ~ is_prefix lib_dest q -> ~ is_prefix q lib_dest ->
       lookup q fs' = lookup q sample_fs) /\
    (forall q, is_prefix q lib_dest -> exists es, lookup q fs' = Some (FDir es)) /\
    (forall x t, lookup (lib_dest ++ [x]) sample_fs = Some (FLink t) ->
       ~ is_prefix lib_dest t -> ~ is_prefix t lib_dest ->
       forall r, lookup (t ++ r) fs' = lookup (t ++ r) sample_fs).
Proof.
  assert (D : dirs_on lib_dest sample_fs = true) by reflexivity.
  assert (N : forall es, lookup lib_dest sample_fs = Some (FDir es) -> NoDup (map fst es)).
  { intros es H. vm_compute in H. injection H as <-.
    repeat constructor; simpl; intuition discriminate. }
  split; [exact D|]. split; [exact N|].
  exact (clear_directory_local lib_dest sample_fs D N).
Defined.

End FSProofs.

(** ** More of the consumer *)
Module ConsumerExtra.
Import Consumer ConsumerReasoning.


Lemma last_In' {A} (l : list A) d : l <> [] -> In (last l d) l.
Proof.
  induction l as [|x r IH]; [congruence|]. intros _.
  destruct r as [|y r']; [left; reflexivity|].
  right. apply IH. discriminate.
Qed.

Lemma last_max l d :
  StronglySorted (fun a b => str_le a b = true) l ->
  forall x, In x l -> str_le x (last l d) = true.
Proof.
  induction l as [|a r IH]; [intros _ x []|].
  intros Hs x Hx. inversion Hs as [|? ? Hr Hall]; subst.
  destruct r as [|y r'].
  - destruct Hx as [<-|[]]. apply str_le_refl.
  - change (last (a :: y :: r') d) with (last (y :: r') d).
    destruct Hx as [<-|Hx].
    + rewrite Forall_forall in Hall. apply Hall, last_In'. discriminate.
    + apply IH; assumption.
Qed.

(** [find_latest_non_monthly_backup] changes nothing; it returns [None]
    exactly when the backup directory is missing or no name is a candidate,
    and otherwise a candidate that is greatest among the candidates in the
    order of [sort]. *)
Lemma find_latest_spec prefix w :
  let cands := filter (is_candidate prefix) (listdir (bdir w)) in
  (find_latest_non_monthly_backup prefix w = Ok None w /\
     (backup_dir_exists w = false \/ cands = [])) \/
  (exists b, find_latest_non_monthly_backup prefix w = Ok (Some b) w /\
     backup_dir_exists w = true /\ In b cands /\
     forall c, In c cands -> str_le c b = true).
Proof.
  cbv zeta. unfold find_latest_non_monthly_backup, bind, get, ret.
  destruct (backup_dir_exists w) eqn:B; cbn [negb].
  2:{ left. auto. }
  destruct (filter (is_candidate prefix) (listdir (bdir w))) as [|c r] eqn:C.
  { left. auto. }
  right. exists (last (sort_str (c :: r)) c). split; [reflexivity|]. split; [reflexivity|].
  assert (P : Permutation (sort_str (c :: r)) (c :: r)) by apply sort_perm.
  split.
  - apply (Permutation_in _ P), last_In'. intros E.
    apply Permutation_length in P. rewrite E in P. discriminate.
  - intros x Hx. apply last_max.
    + apply (sort_sorted str_le str_le_total str_le_trans).
    + apply (Permutation_in _ (Permutation_sym P)), Hx.
Qed.

(** A library whose producer state file is missing or holds only white
    space is skipped: the iteration announces it and changes nothing else;
    in particular it issues no stop command and keeps [any_restored]. *)
Theorem body_skips_without_producer_state b q dq w :
  (lookup_dir (bdir w) (remote_state_file q) = None \/
   exists s, lookup_dir (bdir w) (remote_state_file q) = Some (Text s) /\ strip s = "") ->
  body b (q, dq) w = Ok b (mkWorld (backup_dir_exists w) (bdir w) (log w ++ [Visit q])).
Proof.
  intros H. destruct w as [bde d lg]. cbn [bdir] in H.
  cbv beta iota zeta delta [body bind emit read_state get ret bdir log backup_dir_exists].
  destruct H as [H|[s [H Hs]]]; rewrite H; [reflexivity|].
  rewrite Hs. reflexivity.
Qed.

Lemma body_skips_without_producer_state_witness :
  (lookup_dir (bdir w_blank_state) (remote_state_file "books") = None \/
   exists s, lookup_dir (bdir w_blank_state) (remote_state_file "books") = Some (Text s) /\
             strip s = "") /\
  body false ("books", "calibre-libraries/Books Library") w_blank_state =
    Ok false (mkWorld true (bdir w_blank_state) [Visit "books"]).
Proof.
  assert (H : lookup_dir (bdir w_blank_state) (remote_state_file "books") = None \/
    exists s, lookup_dir (bdir w_blank_state) (remote_state_file "books") = Some (Text s) /\
              strip s = "") by (right; exists "   "; split; reflexivity).
  split; [exact H|].
  exact (body_skips_without_producer_state false "books" "calibre-libraries/Books Library"
           w_blank_state H).
Defined.


Lemma body_shape b q dq w :
  exists new, log (res_world (body b (q, dq) w)) = log w ++ Visit q :: new /\
   ((exists w', body b (q, dq) w = Ok b w' /\ (new = [] \/ new = stop_part b)) \/
    (exists e w', body b (q, dq) w = Exc e w' /\ (new = [] \/ new = stop_part b ++ [Clear dq])) \/
    (exists w' bk v, body b (q, dq) w = Ok true w' /\
       new = stop_part b ++ [Clear dq; Extract bk dq; WriteState (local_state_file q) v])).
Proof.
  destruct w as [bde d lg]; destruct b;
  cbv beta iota zeta delta [body bind emit read_state get ret raise
    find_latest_non_monthly_backup restore_library_from_backup
    write_state put stop_calibre_container bdir log backup_dir_exists];
  repeat (simpl; match goal with
                 | |- context [match ?x with _ => _ end] =>
                     lazymatch x with
                     | context [match _ with _ => _ end] => fail
                     | _ => destruct x eqn:?
                     end
                 end);
  simpl; rewrite <- ?app_assoc; simpl; eexists; (split; [reflexivity|]);
  first
    [ left; eexists; split; [reflexivity | first [left; reflexivity | right; reflexivity]]
    | right; left; do 2 eexists; split; [reflexivity | first [left; reflexivity | right; reflexivity]]
    | right; right; do 3 eexists; split; reflexivity ].
Qed.


Lemma sbc_app a b :
  stop_before_clear a -> (In Stop a \/ stop_before_clear b) -> stop_before_clear (a ++ b).
Proof.
  intros Ha Hb l1 d l2 E. apply app_eq_app in E as [l [[E1 E2]|[E1 E2]]].
  - destruct l as [|x l].
    + rewrite app_nil_r in E1. subst a. simpl in E2. subst b.
      destruct Hb as [Hs|Hb]; [exact Hs|].
      exfalso. exact (Hb [] d l2 eq_refl).
    + injection E2 as E3 E2. subst x. apply (Ha l1 d l E1).
  - subst l1 b. apply in_or_app. destruct Hb as [Hs|Hb]; [left; exact Hs|].
    right. apply (Hb l d l2). reflexivity.
Qed.

Lemma sbc_noclear l : (forall d, ~ In (Clear d) l) -> stop_before_clear l.
Proof.
  intros H l1 d l2 E. exfalso. apply (H d). rewrite E. apply in_or_app. right. left. reflexivity.
Qed.

Lemma sbc_visit_stop q l : stop_before_clear (Visit q :: Stop :: l).
Proof.
  intros l1 d l2 E. destruct l1 as [|x [|y l1]]; simpl in E; inversion E; subst; simpl; auto.
Qed.

Lemma sbc_visit_noclear q l : (forall d, ~ In (Clear d) l) -> stop_before_clear (Visit q :: l).
Proof.
  intros H. apply sbc_noclear. intros d [E|Hd]; [discriminate | exact (H d Hd)].
Qed.

Lemma fold_events libs : forall b w, exists new,
  log (res_world (foldM body libs b w)) = log w ++ new /\
  ~ In Start new /\
  (b = false -> stop_before_clear new) /\
  (forall b' w', foldM body libs b w = Ok b' w' ->
     (b' = true <-> b = true \/ exists bk d, In (Extract bk d) new)).
Proof.
  induction libs as [|[q dq] r IH]; intros b w; cbn [foldM].
  - exists []. split; [symmetry; apply app_nil_r|]. split; [intros []|].
    split; [intros _; apply sbc_noclear; intros d []|].
    intros b' w' E. injection E as <- _. split; [auto|]. intros [H|[bk [d []]]]; exact H.
  - destruct (body_shape b q dq w) as [new1 [G1 C1]].
    unfold bind.
    destruct C1 as [[w1 [E [N|N]]]|[[e [w1 [E [N|N]]]]|[w1 [bk [v [E N]]]]]];
      rewrite E in *; cbv beta iota; cbn [res_world] in *; subst new1.
    + destruct (IH b w1) as [new2 [G2 [S2 [T2 R2]]]].
      exists (Visit q :: new2). rewrite G2, G1, <- app_assoc. split; [reflexivity|].
      split; [intros [H|H]; [discriminate | exact (S2 H)]|]. split.
      * intros Hb. apply (sbc_app [Visit q] new2); [apply sbc_visit_noclear; intros d []|].
        right. exact (T2 Hb).
      * intros b' w' F. rewrite (R2 b' w' F). split.
        -- intros [H|[bk [d H]]]; [left; exact H | right; exists bk, d; right; exact H].
        -- intros [H|[bk [d [H|H]]]]; [left; exact H | discriminate | right; exists bk, d; exact H].
    + destruct (IH b w1) as [new2 [G2 [S2 [T2 R2]]]].
      exists (Visit q :: stop_part b ++ new2). rewrite G2, G1, <- app_assoc. split; [reflexivity|].
      split.
      { intros [H|H]; [discriminate|]. apply in_app_or in H as [H|H]; [|exact (S2 H)].
        destruct b; simpl in H; [exact H | destruct H as [H|[]]; discriminate]. }
      split.
      * intros Hb. subst b. apply (sbc_app [Visit q; Stop] new2); [apply sbc_visit_stop|].
        left. right. left. reflexivity.
      * intros b' w' F. rewrite (R2 b' w' F). split.
        -- intros [H|[bk [d H]]]; [left; exact H | right; exists bk, d; right].
           apply in_or_app. right. exact H.
        -- intros [H|[bk [d [H|H]]]]; [left; exact H | discriminate|].
           apply in_app_or in H as [H|H].
           ++ destruct b; simpl in H; [destruct H | destruct H as [H|[]]; discriminate].
           ++ right. exists bk, d. exact H.
    + exists [Visit q]. rewrite G1. split; [reflexivity|].
      split; [intros [H|[]]; discriminate|]. split.
      * intros _. apply sbc_visit_noclear. intros d [].
      * intros b' w' F. discriminate.
    + exists (Visit q :: stop_part b ++ [Clear dq]). rewrite G1. split; [reflexivity|].
      split.
      { intros [H|H]; [discriminate|]. destruct b; simpl in H; intuition discriminate. }
      split.
      * intros ->. apply sbc_visit_stop.
      * intros b' w' F. discriminate.
    + destruct (IH true w1) as [new2 [G2 [S2 [T2 R2]]]].
      set (mine := Visit q :: stop_part b ++
                   [Clear dq; Extract bk dq; WriteState (local_state_file q) v]).
      exists (mine ++ new2). rewrite G2, G1, <- app_assoc. split; [reflexivity|].
      split.
      { intros H. apply in_app_or in H as [H|H]; [|exact (S2 H)].
        unfold mine in H. destruct b; simpl in H; intuition discriminate. }
      split.
      * intros ->. apply sbc_app; [apply sbc_visit_stop|]. left. right. left. reflexivity.
      * intros b' w' F. rewrite (R2 b' w' F). split; [intros _|intros _; left; reflexivity].
        right. exists bk, dq. apply in_or_app. left. unfold mine.
        right. apply in_or_app. right. right. left. reflexivity.
Qed.

(** The service commands of a consumer run: every clearing of a library
    comes after a stop command; the start command is issued iff the run ends
    normally having extracted an archive, and then once, as the last event. *)
Theorem consumer_service_order libs w :
  let r := main_with libs w in
  exists new, log (res_world r) = log w ++ new /\
    stop_before_clear new /\
    (In Start new <-> is_ok r /\ exists bk d, In (Extract bk d) new) /\
    (forall pre post, new = pre ++ Start :: post -> post = [] /\ ~ In Start pre).
Proof.
  cbv zeta. unfold main_with, bind, get. cbv beta.
  destruct (backup_dir_exists w) eqn:B; cbn [negb].
  2:{ exists []. split; [symmetry; apply app_nil_r|]. split; [apply sbc_noclear; intros d []|].
      split; [split; [intros []| intros [_ [bk [d []]]]]|].
      intros pre post E. destruct pre; discriminate. }
  destruct (fold_events libs false w) as [new [G [NS [S R]]]].
  destruct (foldM body libs false w) as [b' w1|e w1]; cbn [res_world] in G.
  - specialize (R b' w1 eq_refl). destruct b'.
    + unfold start_calibre_container, emit. cbn [res_world log].
      exists (new ++ [Start]). rewrite G, <- app_assoc. split; [reflexivity|].
      split; [apply sbc_app; [exact (S eq_refl) | right; apply sbc_noclear; intros d [H|[]]; discriminate]|].
      split.
      * split; [intros _; split; [exact I|] | intros _; apply in_or_app; right; left; reflexivity].
        destruct (proj1 R eq_refl) as [H|[bk [d H]]]; [discriminate|].
        exists bk, d. apply in_or_app. left. exact H.
      * intros pre post E. apply app_eq_app in E as [l [[E1 E2]|[E1 E2]]].
        -- destruct l as [|x l].
           ++ rewrite app_nil_r in E1. subst pre. injection E2 as <-. auto.
           ++ injection E2 as E3 _. subst x new. exfalso. apply NS. apply in_or_app. right. left. reflexivity.
        -- destruct l as [|x l].
           ++ simpl in E2. injection E2 as <-. rewrite app_nil_r in E1. subst pre. auto.
           ++ injection E2 as _ E2. destruct l; discriminate.
    + cbn [ret res_world]. exists new. split; [exact G|]. split; [exact (S eq_refl)|].
      split.
      * split; [intros H; exfalso; exact (NS H)|].
        intros [_ H]. exfalso. discriminate (proj2 R (or_intror H)).
      * intros pre post E. exfalso. apply NS. rewrite E. apply in_or_app. right. left. reflexivity.
  - exists new. split; [exact G|]. split; [exact (S eq_refl)|]. split.
    + split; [intros H; exfalso; exact (NS H) | intros [[] _]].
    + intros pre post E. exfalso. apply NS. rewrite E. apply in_or_app. right. left. reflexivity.
Qed.

(** The consumer's state file of a library is never a producer state file. *)
Lemma local_not_remote q q' : local_state_file q <> remote_state_file q'.
Proof.
  intros E. apply (f_equal (fun s => firstn 11 (rev (list_ascii_of_string s)))) in E.
  unfold local_state_file, remote_state_file, LOCAL_STATE_SUFFIX in E.
  rewrite !ProducerRunProofs.list_ascii_app, !rev_app_distr, !firstn_app in E.
  simpl in E. discriminate.
Qed.

(** A consumer run writes no file of the backup directory other than the
    consumer state files of the configured libraries, and those are never
    the producer's state files. *)
Theorem consumer_writes_only_own_state libs w :
  (forall n, (forall q dq, In (q, dq) libs -> n <> local_state_file q) ->
     lookup_dir (bdir (res_world (main_with libs w))) n = lookup_dir (bdir w) n) /\
  (forall q q', local_state_file q <> remote_state_file q').
Proof.
  split; [|apply local_not_remote].
  intros n Hn. unfold main_with, bind, get. cbv beta.
  destruct (backup_dir_exists w); cbn [negb]; [|reflexivity].
  destruct (ConsumerProofs.fold_frame libs false w) as [_ [L _]].
  destruct (foldM body libs false w) as [[|] w1|e w1]; cbn [res_world] in *.
  - unfold start_calibre_container, emit. cbn [res_world bdir]. apply L, Hn.
  - apply L, Hn.
  - apply L, Hn.
Qed.

End ConsumerExtra.

(** ** More of the producer *)
Module ProducerExtra.
Import Producer ProducerReasoning ProducerRunProofs.

Lemma hexdigest_nonempty b : b <> [] -> hexdigest b <> "".
Proof. destruct b as [|x r]; [congruence|]. intros _. unfold hexdigest. simpl. discriminate. Qed.

(** When [has_library_changed] returns normally, the state file holds the
    current fingerprint as [read_state] of the consumer reads it (SHA-256
    digests being non-empty), whether it was just written or already there. *)
Theorem state_file_read_back ord sha256 p es w b w' :
  (forall bs, sha256 bs <> []) ->
  has_library_changed ord sha256 p es w = Ok b w' ->
  forall bde lg,
  let cw := Consumer.mkWorld bde (bdir w') lg in
  Consumer.read_state (Consumer.remote_state_file p) cw =
    Ok (Some (compute_library_fingerprint ord sha256 es)) cw.
Proof.
  intros Hsha H bde lg. cbv zeta.
  assert (HF : String.eqb (compute_library_fingerprint ord sha256 es) "" = false).
  { apply String.eqb_neq, hexdigest_nonempty, Hsha. }
  change (Consumer.remote_state_file p) with (state_file_for_prefix p).
  destruct (has_library_changed_cases ord sha256 p es w)
    as [[s [L [S E]]]|[[ms [ok [L E]]]|[_ E]]]; rewrite E in H; try discriminate;
    injection H as <- <-;
    cbv beta delta [Consumer.read_state bind get ret]; cbn [Consumer.bdir].
  - rewrite L, S, HF. reflexivity.
  - cbn [bdir]. rewrite lookup_write_dir, String.eqb_refl, fingerprint_stripped, HF. reflexivity.
Qed.

(** Once [has_library_changed] has returned normally, a second call on the
    same library tree returns [False] and changes nothing. *)
Theorem has_library_changed_settles ord sha256 p es w b w' :
  has_library_changed ord sha256 p es w = Ok b w' ->
  has_library_changed ord sha256 p es w' = Ok false w'.
Proof.
  intros H.
  destruct (has_library_changed_cases ord sha256 p es w)
    as [[s [L [S E]]]|[[ms [ok [L E]]]|[_ E]]]; rewrite E in H; try discriminate;
    injection H as <- <-; [exact E|].
  destruct (has_library_changed_cases ord sha256 p es
              (mkWorld (write_dir (bdir w) (state_file_for_prefix p)
                 (Text (compute_library_fingerprint ord sha256 es))) (trees w) (tick w)
                 (log w ++ [WriteState (state_file_for_prefix p) (compute_library_fingerprint ord sha256 es)])))
    as [[s [L [S E']]]|[[ms [ok [L E']]]|[N E']]]; [exact E'| |].
  - cbn [bdir] in L. rewrite lookup_write_dir, String.eqb_refl in L. discriminate.
  - exfalso. apply (N (compute_library_fingerprint ord sha256 es)).
    + cbn [bdir]. rewrite lookup_write_dir, String.eqb_refl. reflexivity.
    + apply fingerprint_stripped.
Qed.







(** A producer run keeps the library trees, changes no file of the backup
    directory whose name does not start with [<prefix>_library_] for a
    configured prefix, and keeps the names of the directory distinct. *)
Theorem producer_writes_only_library_files ord sha256 clock libs w :
  let w' := res_world (main_with ord sha256 clock libs w) in
  trees w' = trees w /\
  (forall n, (forall q ld, In (q, ld) libs -> startswith n (q +++ "_library_") = false) ->
     lookup_dir (bdir w') n = lookup_dir (bdir w) n) /\
  (NoDup (listdir (bdir w)) -> NoDup (listdir (bdir w'))).
Proof.
  cbv zeta. destruct (main_with_step ord sha256 clock libs w) as [T [L [N _]]].
  split; [exact T|]. split; [|exact N].
  intros n Hn. apply L. intros [q [ld [Hin Ho]]]. unfold owned in Ho.
  rewrite (Hn q ld Hin) in Ho. discriminate.
Qed.


Lemma state_file_read_back_witness :
  (forall bs, sha_tag bs <> []) /\
  exists w',
    has_library_changed FingerprintSpec.listing_as_is sha_tag "manga" manga_files w_vanished
      = Ok true w' /\
    Consumer.read_state (Consumer.remote_state_file "manga") (Consumer.mkWorld true (bdir w') [])
      = Ok (Some (compute_library_fingerprint FingerprintSpec.listing_as_is sha_tag manga_files))
           (Consumer.mkWorld true (bdir w') []).
Proof.
  assert (S : forall bs, sha_tag bs <> []) by (intros bs; discriminate).
  split; [exact S|].
  set (r := has_library_changed FingerprintSpec.listing_as_is sha_tag "manga" manga_files w_vanished).
  exists (res_world r).
  assert (E : r = Ok true (res_world r)) by (vm_compute; reflexivity).
  split; [exact E|].
  exact (state_file_read_back FingerprintSpec.listing_as_is sha_tag "manga" manga_files
           w_vanished true (res_world r) S E true []).
Defined.

Lemma has_library_changed_settles_witness :
  exists w',
    has_library_changed FingerprintSpec.listing_as_is sha_id "manga" manga_files w_vanished
      = Ok true w' /\
    has_library_changed FingerprintSpec.listing_as_is sha_id "manga" manga_files w'
      = Ok false w'.
Proof.
  set (r := has_library_changed FingerprintSpec.listing_as_is sha_id "manga" manga_files w_vanished).
  exists (res_world r).
  assert (E : r = Ok true (res_world r)) by (vm_compute; reflexivity).
  split; [exact E|].
  exact (has_library_changed_settles FingerprintSpec.listing_as_is sha_id "manga" manga_files
           w_vanished true (res_world r) E).
Defined.

End ProducerExtra.

(** ** The names of the archives, as both scripts read them *)
Module NamingProofs.
Import Producer ProducerReasoning ProducerRunProofs PruneProofs.

(** *** [startswith] and [in] on character lists *)
Lemma prefix_iff a s :
  String.prefix a s = true <-> exists v, list_ascii_of_string s = list_ascii_of_string a ++ v.
Proof.
  revert s. induction a as [|c a IH]; intros s.
  - split; [intros _; exists (list_ascii_of_string s); reflexivity | intros _; destruct s; reflexivity].
  - destruct s as [|c' s]; simpl.
    + split; [discriminate | intros [v H]; discriminate].
    + destruct (ascii_dec c c') as [<-|N].
      * rewrite IH. split; intros [v H]; exists v; [rewrite H; reflexivity | injection H as H; exact H].
      * split; [discriminate | intros [v H]; injection H as H1 _; congruence].
Qed.

Lemma contains_iff sub s :
  contains sub s = true <->
  exists u v, list_ascii_of_string s = u ++ list_ascii_of_string sub ++ v.
Proof.
  induction s as [|c s IH]; cbn [contains].
  - rewrite orb_false_r, prefix_iff. split.
    + intros [v H]. exists [], v. exact H.
    + intros [u [v H]]. destruct u; [exists v; exact H | discriminate].
  - rewrite orb_true_iff, prefix_iff, IH. split.
    + intros [[v H]|[u [v H]]]; [exists [], v; exact H|].
      exists (c :: u), v. simpl. rewrite H. reflexivity.
    + intros [[|c' u] [v H]]; [left; exists v; exact H|].
      right. simpl in H. injection H as _ H. exists u, v. exact H.
Qed.

Lemma pad_digits w n :
  n < 10 ^ w -> Forall (fun c => exists d, d < 10 /\ c = digit d) (list_ascii_of_string (pad w n)).
Proof.
  revert n. induction w as [|w IH]; intros n Hn; cbn [pad list_ascii_of_string]; [constructor|].
  pose proof (Nat.pow_nonzero 10 w ltac:(lia)) as Hp.
  constructor.
  - exists (n / 10 ^ w). split; [|reflexivity].
    apply Nat.Div0.div_lt_upper_bound. simpl in Hn. lia.
  - apply IH, Nat.mod_upper_bound, Hp.
Qed.


Lemma digit_plain d : d < 10 -> plain (digit d).
Proof.
  intros Hd. do 10 (destruct d as [|d]; [split; [reflexivity | discriminate]|]). lia.
Qed.

Lemma pad_plain w n : n < 10 ^ w -> Forall plain (list_ascii_of_string (pad w n)).
Proof.
  intros H. eapply Forall_impl; [|exact (pad_digits w n H)].
  intros c [d [Hd ->]]. apply digit_plain, Hd.
Qed.

Ltac plain_pieces :=
  rewrite ?list_ascii_app; repeat (apply Forall_app; split);
  first [ apply pad_plain; assumption
        | cbn [list_ascii_of_string]; repeat constructor; discriminate ].

Lemma strftime_full_plain t :
  dt_valid t = true -> Forall plain (list_ascii_of_string (strftime_full t)).
Proof.
  intros H. destruct (dt_valid_bounds t H) as [Y [M [D [h [m s]]]]].
  unfold strftime_full. plain_pieces.
Qed.

Lemma strftime_month_plain t :
  dt_valid t = true -> Forall plain (list_ascii_of_string (strftime_month t)).
Proof.
  intros H. destruct (dt_valid_bounds t H) as [Y [M _]].
  unfold strftime_month. plain_pieces.
Qed.

Ltac name_pieces :=
  rewrite ?list_ascii_app; repeat (apply Forall_app; split);
  first [ apply strftime_full_plain; assumption
        | apply strftime_month_plain; assumption
        | cbn [list_ascii_of_string]; repeat constructor; discriminate ].

Lemma takewhile_app {A} (f : A -> bool) a y b :
  Forall (fun x => f x = true) a -> f y = false -> takewhile f (a ++ y :: b) = a.
Proof.
  intros Ha Hy. induction Ha as [|x a Hx _ IH]; simpl; [rewrite Hy; reflexivity|].
  rewrite Hx, IH. reflexivity.
Qed.

Lemma basename_join n :
  Forall (fun c => is_sep c = false) (list_ascii_of_string n) -> basename (join_bd n) = n.
Proof.
  intros H. unfold basename, join_bd. rewrite !list_ascii_app, !rev_app_distr.
  change (rev (list_ascii_of_string SEP)) with ["\"%char].
  rewrite <- app_assoc. cbn [app].
  rewrite takewhile_app; [|apply Forall_rev; eapply Forall_impl; [|exact H]|reflexivity].
  - rewrite rev_involutive. apply string_of_list_ascii_of_string.
  - intros c Hc. rewrite Hc. reflexivity.
Qed.

(** The producer's names for library [p]: [p_library_] followed by [R]. *)
Lemma no_monthly_in p r :
  contains "_monthly" p = false ->
  Forall plain (list_ascii_of_string r) ->
  hd_error (list_ascii_of_string r) = Some "_"%char ->
  contains "_monthly" (p +++ r) = false.
Proof.
  intros Hp Hr Hh. destruct (contains "_monthly" (p +++ r)) eqn:C; [|reflexivity].
  exfalso. apply contains_iff in C as [u [v E]]. rewrite list_ascii_app in E.
  assert (Mr : forall l, In "m"%char l -> incl l (list_ascii_of_string r) -> False).
  { intros l Hm Hi. apply Hi in Hm. rewrite Forall_forall in Hr. exact (proj2 (Hr _ Hm) eq_refl). }
  set (M := list_ascii_of_string "_monthly") in *.
  apply app_eq_app in E as [l [[E1 E2]|[E1 E2]]].
  - (* p = u ++ l, M ++ v = l ++ r *)
    apply app_eq_app in E2 as [l' [[F1 F2]|[F1 F2]]].
    + (* M = l ++ l', r = l' ++ v *)
      destruct l' as [|h t].
      * rewrite app_nil_r in F1. subst l.
        assert (contains "_monthly" p = true)
          by (apply contains_iff; exists u, []; rewrite app_nil_r; exact E1).
        congruence.
      * rewrite F2 in Hh. simpl in Hh. injection Hh as ->.
        destruct l as [|x l0].
        -- simpl in F1. apply (Mr M); [unfold M; simpl; auto|].
           rewrite F2, F1. intros c Hc. apply in_or_app. left. exact Hc.
        -- unfold M in F1. simpl in F1. injection F1 as _ F1.
           assert (Hin : In "_"%char (l0 ++ "_"%char :: t))
             by (apply in_or_app; right; left; reflexivity).
           rewrite <- F1 in Hin. simpl in Hin. intuition discriminate.
    + (* l = M ++ l' *)
      subst l.
      assert (contains "_monthly" p = true) by (apply contains_iff; exists u, l'; exact E1).
      congruence.
  - (* M ++ v inside r *)
    apply (Mr M); [unfold M; simpl; auto|]. rewrite E2. intros c Hc.
    apply in_or_app. right. apply in_or_app. left. exact Hc.
Qed.

(** For a prefix without separator that does not contain [_monthly], and a
    valid time: the consumer takes the producer's recent archive as a
    candidate and rejects the monthly snapshot and the state file; the
    producer's pruning classifies the recent archive as recent and the
    snapshot as monthly. *)
Theorem archive_names_classified p t :
  dt_valid t = true ->
  contains "_monthly" p = false ->
  Forall (fun c => is_sep c = false) (list_ascii_of_string p) ->
  Consumer.is_candidate p (backup_name p t) = true /\
  Consumer.is_candidate p (monthly_name p t) = false /\
  Consumer.is_candidate p (state_file_for_prefix p) = false /\
  is_monthly_path (join_bd (backup_name p t)) = false /\
  is_monthly_path (join_bd (monthly_name p t)) = true.
Proof.
  intros Ht Hp Hs.
  set (rb := "_library_" +++ strftime_full t +++ ".zip").
  assert (Rb : Forall plain (list_ascii_of_string rb)) by (unfold rb; name_pieces).
  assert (Cb : contains "_monthly" (backup_name p t) = false)
    by (apply (no_monthly_in p rb Hp Rb); reflexivity).
  assert (Cm : contains "_monthly" (monthly_name p t) = true).
  { apply contains_iff. unfold monthly_name. rewrite !list_ascii_app.
    exists (list_ascii_of_string p ++ list_ascii_of_string "_library_" ++
            list_ascii_of_string (strftime_month t)), (list_ascii_of_string ".zip").
    rewrite <- !app_assoc. reflexivity. }
  assert (Sb : Forall (fun c => is_sep c = false) (list_ascii_of_string (backup_name p t))).
  { change (backup_name p t) with (p +++ rb). rewrite list_ascii_app. apply Forall_app.
    split; [exact Hs|]. eapply Forall_impl; [|exact Rb]. intros c [H _]. exact H. }
  assert (Sm : Forall (fun c => is_sep c = false) (list_ascii_of_string (monthly_name p t))).
  { unfold monthly_name. rewrite list_ascii_app. apply Forall_app. split; [exact Hs|].
    rewrite !list_ascii_app. repeat (apply Forall_app; split);
      [cbn; repeat constructor | | cbn; repeat constructor].
    eapply Forall_impl; [|exact (strftime_month_plain t Ht)]. intros c [H _]. exact H. }
  unfold Consumer.is_candidate, is_monthly_path.
  rewrite (basename_join _ Sb), (basename_join _ Sm), Cb, Cm.
  repeat split.
  - assert (Eb : endswith (backup_name p t) ".zip" = true).
    { replace (backup_name p t) with ((p +++ "_library_" +++ strftime_full t) +++ ".zip")
        by (unfold backup_name; rewrite !append_assoc_s; reflexivity).
      apply endswith_app. }
    rewrite Eb. cbn [andb negb]. rewrite andb_true_r. apply owned_app.
  - rewrite !andb_false_r. reflexivity.
  - unfold state_file_for_prefix, endswith. rewrite list_ascii_app, rev_app_distr, string_of_list_app.
    reflexivity.
Qed.


(** When a recent archive of the producer for a valid time is in the backup
    directory, the consumer finds a candidate to restore, and that candidate
    is no producer archive of an earlier time. *)
Theorem consumer_picks_newest_archive p t w :
  dt_valid t = true ->
  contains "_monthly" p = false ->
  Forall (fun c => is_sep c = false) (list_ascii_of_string p) ->
  Consumer.backup_dir_exists w = true ->
  In (backup_name p t) (listdir (Consumer.bdir w)) ->
  exists b,
    Consumer.find_latest_non_monthly_backup p w = Ok (Some b) w /\
    Consumer.is_candidate p b = true /\
    forall t', dt_valid t' = true -> b = backup_name p t' -> dt_compare t' t <> Lt.
Proof.
  intros Ht Hp Hs Hd Hin.
  destruct (archive_names_classified p t Ht Hp Hs) as [Cb _].
  assert (Hc : In (backup_name p t) (filter (Consumer.is_candidate p) (listdir (Consumer.bdir w))))
    by (apply filter_In; split; assumption).
  destruct (ConsumerExtra.find_latest_spec p w) as [[E [D|D]]|[b [E [_ [Ib Mx]]]]].
  - congruence.
  - rewrite D in Hc. destruct Hc.
  - exists b. split; [exact E|]. split; [apply filter_In in Ib; apply Ib|].
    intros t' Ht' ->. specialize (Mx _ Hc).
    apply str_le_cases in Mx as [Eq|Lt'].
    + rewrite <- (backup_name_compare p) by assumption. rewrite <- Eq, compare_refl_s. discriminate.
    + rewrite <- (backup_name_compare p) by assumption.
      rewrite String.compare_antisym, Lt'. discriminate.
Qed.

Lemma archive_names_classified_witness :
  dt_valid (clock_2025 0) = true /\ contains "_monthly" "books" = false /\
  Forall (fun c => is_sep c = false) (list_ascii_of_string "books") /\
  Consumer.is_candidate "books" (backup_name "books" (clock_2025 0)) = true /\
  Consumer.is_candidate "books" (monthly_name "books" (clock_2025 0)) = false /\
  Consumer.is_candidate "books" (state_file_for_prefix "books") = false /\
  is_monthly_path (join_bd (backup_name "books" (clock_2025 0))) = false /\
  is_monthly_path (join_bd (monthly_name "books" (clock_2025 0))) = true.
Proof.
  assert (H1 : dt_valid (clock_2025 0) = true) by reflexivity.
  assert (H2 : contains "_monthly" "books" = false) by reflexivity.
  assert (H3 : Forall (fun c => is_sep c = false) (list_ascii_of_string "books"))
    by (repeat constructor).
  split; [exact H1|]. split; [exact H2|]. split; [exact H3|].
  exact (archive_names_classified "books" (clock_2025 0) H1 H2 H3).
Defined.

Lemma consumer_picks_newest_archive_witness :
  dt_valid (clock_2025 0) = true /\ contains "_monthly" "books" = false /\
  Forall (fun c => is_sep c = false) (list_ascii_of_string "books") /\
  Consumer.backup_dir_exists Consumer.w_books_damaged = true /\
  In (backup_name "books" (clock_2025 0)) (listdir (Consumer.bdir Consumer.w_books_damaged)) /\
  exists b,
    Consumer.find_latest_non_monthly_backup "books" Consumer.w_books_damaged =
      Ok (Some b) Consumer.w_books_damaged /\
    Consumer.is_candidate "books" b = true /\
    forall t', dt_valid t' = true -> b = backup_name "books" t' ->
      dt_compare t' (clock_2025 0) <> Lt.
Proof.
  assert (H1 : dt_valid (clock_2025 0) = true) by reflexivity.
  assert (H2 : contains "_monthly" "books" = false) by reflexivity.
  assert (H3 : Forall (fun c => is_sep c = false) (list_ascii_of_string "books"))
    by (repeat constructor).
  assert (H4 : Consumer.backup_dir_exists Consumer.w_books_damaged = true) by reflexivity.
  assert (H5 : In (backup_name "books" (clock_2025 0))
                  (listdir (Consumer.bdir Consumer.w_books_damaged)))
    by (apply existsb_eqb_In; reflexivity).
  split; [exact H1|]. split; [exact H2|]. split; [exact H3|]. split; [exact H4|].
  split; [exact H5|].
  exact (consumer_picks_newest_archive "books" (clock_2025 0) Consumer.w_books_damaged
           H1 H2 H3 H4 H5).
Defined.

End NamingProofs.

(** ** [clear_directory] under a regular file *)
Module FSExtra.
Import FS FSProofs.

Lemma mkdirs_under_file q : forall n r, lookup q n = Some FFile -> mkdirs (q ++ r) n = None.
Proof.
  induction q as [|c q IH]; intros n r H.
  - simpl in H. injection H as ->. destruct r; reflexivity.
  - destruct n as [|es|t]; try discriminate. simpl in H |- *.
    destruct (assoc es c) as [m|]; [|discriminate]. rewrite (IH m r H). reflexivity.
Qed.

(** When the restore destination is a regular file or lies below one,
    [clear_directory] raises an [OSError] ([os.makedirs] fails) and changes
    nothing. *)
Theorem clear_directory_under_file dest fs q :
  is_prefix q dest -> lookup q fs = Some FFile ->
  clear_directory dest fs = Exc (OSError (path_str dest)) fs.
Proof.
  intros [r ->] H. unfold clear_directory, makedirs, bind.
  rewrite (mkdirs_under_file q fs r H). reflexivity.
Qed.

Lemma clear_directory_under_file_witness :
  is_prefix ["lib"; "metadata.db"] ["lib"; "metadata.db"] /\
  lookup ["lib"; "metadata.db"] sample_fs = Some FFile /\
  clear_directory ["lib"; "metadata.db"] sample_fs = Exc (OSError "lib/metadata.db") sample_fs.
Proof.
  assert (P : is_prefix ["lib"; "metadata.db"] ["lib"; "metadata.db"])
    by (exists []; reflexivity).
  assert (L : lookup ["lib"; "metadata.db"] sample_fs = Some FFile) by reflexivity.
  split; [exact P|]. split; [exact L|].
  exact (clear_directory_under_file ["lib"; "metadata.db"] sample_fs _ P L).
Defined.

End FSExtra.
